(** * SoupaWhisper: push-to-talk dictation (dictate.py)

    A shallow embedding of [dictate.py] and the properties of its
    controller: the recording / transcription state machine of class
    [Dictation], the model-readiness latch shared with the background
    loader thread, the notifier, the transcript join, and [load_config].

    Python values are modelled as follows.
    - [str] is a sequence of Unicode code points ([list N]); [len], slices
      and [strip] then count code points, as CPython does.
    - an object attribute that may hold [None] is an [option].
    - an exception is a value of [exn]; a call returns [Ok], [Raise] or
      never returns ([Blocked]).
    - every externally visible step (a subprocess, a file, a console line,
      a call into the recognition engine) is appended to a log of events,
      so that ordering and counting properties can be stated. *)

From Stdlib Require Import String Ascii List NArith ZArith Bool Lia.
From Stdlib Require Import DecimalString.
From stdpp Require Import gmap list.
Import ListNotations.

Local Open Scope N_scope.

(** ** Python strings *)

Abbreviation pystr := (list N).

(** A source literal (all literals of dictate.py are ASCII). *)
Definition lit (s : string) : pystr :=
  map N_of_ascii (list_ascii_of_string s).

(** [str.isspace] for one code point: the white-space set of CPython
    ([_PyUnicode_IsWhitespace]), which is also what [str.strip()] removes. *)
Definition py_isspace (c : N) : bool :=
  ((0x09 <=? c) && (c <=? 0x0D))
  || ((0x1C <=? c) && (c <=? 0x20))
  || (c =? 0x85) || (c =? 0xA0) || (c =? 0x1680)
  || ((0x2000 <=? c) && (c <=? 0x200A))
  || (c =? 0x2028) || (c =? 0x2029) || (c =? 0x202F)
  || (c =? 0x205F) || (c =? 0x3000).

Fixpoint py_lstrip (s : pystr) : pystr :=
  match s with
  | [] => []
  | c :: r => if py_isspace c then py_lstrip r else s
  end.

Definition py_rstrip (s : pystr) : pystr := rev (py_lstrip (rev s)).

(** [s.strip()] *)
Definition py_strip (s : pystr) : pystr := py_rstrip (py_lstrip s).

(** [sep.join(parts)] *)
Fixpoint py_join (sep : pystr) (parts : list pystr) : pystr :=
  match parts with
  | [] => []
  | [x] => x
  | x :: rest => x ++ sep ++ py_join sep rest
  end.

(** Truth value of a [str]: non-empty. *)
Definition truthy (s : pystr) : bool :=
  match s with [] => false | _ :: _ => true end.

(** Truth value of an attribute holding [None] or a [str]. *)
Definition truthy_opt (o : option pystr) : bool :=
  match o with None => false | Some s => truthy s end.

(** [str(n)] for a non-negative [int]. *)
Definition py_str_int (n : N) : pystr :=
  lit (NilZero.string_of_uint (N.to_uint n)).

(** Lower-casing of the ASCII letters.  [str.lower] agrees with it on
    ASCII text, and no code point outside ASCII lower-cases to one of the
    letters tested below (the boolean words of configparser, "cuda",
    "cudnn"), so the membership tests built on it are those of CPython. *)
Definition lower_char (c : N) : N :=
  if (0x41 <=? c) && (c <=? 0x5A) then c + 0x20 else c.

Definition py_lower (s : pystr) : pystr := map lower_char s.

Definition pystr_eqb (a b : pystr) : bool := bool_decide (a = b).

Fixpoint starts_with (pat s : pystr) : bool :=
  match pat, s with
  | [], _ => true
  | p :: pat', c :: s' => (p =? c) && starts_with pat' s'
  | _ :: _, [] => false
  end.

(** [pat in s] *)
Fixpoint py_contains (pat s : pystr) : bool :=
  starts_with pat s ||
  match s with
  | [] => false
  | _ :: s' => py_contains pat s'
  end.

(** A speech segment as returned by the engine; only [text] is read. *)
Record Segment := mkSegment { text : pystr }.

(** Line 205: [" ".join(segment.text.strip() for segment in segments)]. *)
Definition transcript_of (segments : list Segment) : pystr :=
  py_join (lit " ") (map (fun segment => py_strip (text segment)) segments).


(** ** configparser, as used by [load_config]

    [ConfigParser] is the standard-library class; what follows is the part
    of it that [load_config] exercises: [read], [get] and [getboolean] with
    a [fallback], the DEFAULT section, and basic interpolation. *)

Module configparser.

Inductive Error :=
| ParsingError (msg : pystr)
| InterpolationSyntaxError (opt section : pystr)
| InterpolationMissingOptionError (opt section reference : pystr)
| InterpolationDepthError (opt section : pystr)
| ValueError (msg : pystr).

Inductive outcome (A : Type) :=
| Return (a : A)
| Raised (e : Error).
Arguments Return {A} a.
Arguments Raised {A} e.

Definition obind {A B} (m : outcome A) (k : A -> outcome B) : outcome B :=
  match m with
  | Return a => k a
  | Raised e => Raised e
  end.

(** The parser's state: the DEFAULT section and the named sections, each
    a dictionary from (lower-cased) option names to raw values. *)
Record ConfigParser := mkConfigParser {
  cp_defaults : gmap pystr pystr;
  cp_sections : gmap pystr (gmap pystr pystr)
}.

(** [configparser.ConfigParser()] *)
Definition new_parser : ConfigParser := mkConfigParser ∅ ∅.

Definition default_section : pystr := lit "DEFAULT".
Definition MAX_INTERPOLATION_DEPTH : nat := 10.

Definition optionxform (opt : pystr) : pystr := py_lower opt.

(** [_unify_values]: the section's dictionary chained over the defaults;
    [None] stands for [NoSectionError]. *)
Definition unify_values (cp : ConfigParser) (section : pystr)
  : option (gmap pystr pystr * gmap pystr pystr) :=
  match cp_sections cp !! section with
  | Some sectiondict => Some (sectiondict, cp_defaults cp)
  | None =>
      if pystr_eqb section default_section
      then Some (∅, cp_defaults cp)
      else None
  end.

Definition chain_lookup (d : gmap pystr pystr * gmap pystr pystr)
  (opt : pystr) : option pystr :=
  match fst d !! opt with
  | Some v => Some v
  | None => snd d !! opt
  end.

(** [BasicInterpolation._KEYCRE], the pattern %(name)s, matched at the
    head of [rest]: the name and what follows the match. *)
Fixpoint split_at_paren (s : pystr) : option (pystr * pystr) :=
  match s with
  | [] => None
  | c :: r =>
      if c =? 0x29 then Some ([], r)
      else match split_at_paren r with
           | Some (name, after) => Some (c :: name, after)
           | None => None
           end
  end.

Definition match_key (rest : pystr) : option (pystr * pystr) :=
  match rest with
  | 0x25 :: 0x28 :: r =>
      match split_at_paren r with
      | Some ((_ :: _) as name, 0x73 :: after) => Some (name, after)
      | _ => None
      end
  | _ => None
  end.

(** [BasicInterpolation._interpolate_some]; [levels] counts the nesting
    depths still allowed, [accum] is the text produced so far. *)
Fixpoint interpolate_some (levels : nat) (opt section : pystr)
  (map : gmap pystr pystr * gmap pystr pystr) (rest accum : pystr)
  : outcome pystr :=
  match levels with
  | O => Raised (InterpolationDepthError opt section)
  | S levels' =>
      (fix scan (n : nat) (rest accum : pystr) : outcome pystr :=
         match n, rest with
         | O, _ => Return accum
         | _, [] => Return accum
         | S n', c :: r =>
             if c =? 0x25 then
               match r with
               | 0x25 :: r2 => scan n' r2 (accum ++ [0x25])
               | 0x28 :: _ =>
                   match match_key rest with
                   | None => Raised (InterpolationSyntaxError opt section)
                   | Some (name, after) =>
                       match chain_lookup map (optionxform name) with
                       | None =>
                           Raised (InterpolationMissingOptionError
                                     opt section (optionxform name))
                       | Some v =>
                           if existsb (N.eqb 0x25) v then
                             match interpolate_some levels' opt section
                                     map v accum with
                             | Return accum' => scan n' after accum'
                             | Raised e => Raised e
                             end
                           else scan n' after (accum ++ v)
                       end
                   end
               | _ => Raised (InterpolationSyntaxError opt section)
               end
             else scan n' r (accum ++ [c])
         end) (length rest) rest accum
  end.

Definition before_get (section opt value : pystr)
  (d : gmap pystr pystr * gmap pystr pystr) : outcome pystr :=
  interpolate_some MAX_INTERPOLATION_DEPTH opt section d value [].

(** [config.get(section, option, fallback=fallback)] *)
Definition get (cp : ConfigParser) (section opt fallback : pystr)
  : outcome pystr :=
  match unify_values cp section with
  | None => Return fallback
  | Some d =>
      match chain_lookup d (optionxform opt) with
      | None => Return fallback
      | Some value => before_get section opt value d
      end
  end.

Definition BOOLEAN_STATES : list (pystr * bool) :=
  [ (lit "1", true); (lit "yes", true); (lit "true", true); (lit "on", true);
    (lit "0", false); (lit "no", false); (lit "false", false);
    (lit "off", false) ].

Fixpoint assoc (k : pystr) (table : list (pystr * bool)) : option bool :=
  match table with
  | [] => None
  | (k', b) :: rest => if pystr_eqb k k' then Some b else assoc k rest
  end.

Definition convert_to_boolean (value : pystr) : outcome bool :=
  match assoc (py_lower value) BOOLEAN_STATES with
  | Some b => Return b
  | None => Raised (ValueError (lit "Not a boolean: " ++ value))
  end.

(** [config.getboolean(section, option, fallback=fallback)]: the fallback
    replaces a missing section or option only. *)
Definition getboolean (cp : ConfigParser) (section opt : pystr)
  (fallback : bool) : outcome bool :=
  match unify_values cp section with
  | None => Return fallback
  | Some d =>
      match chain_lookup d (optionxform opt) with
      | None => Return fallback
      | Some value => obind (before_get section opt value d)
                            convert_to_boolean
      end
  end.

(** What [CONFIG_PATH] holds when [load_config] runs.  A file is
    represented by what [read] makes of it: the sections and options it
    parses to, or the error the parser raises on it. *)
Inductive config_file :=
| NoFile
| Unreadable
| Parses (sections : ConfigParser)
| Malformed (e : Error).

(** [config.read(CONFIG_PATH)] on a fresh parser; a file that cannot be
    opened is skipped silently. *)
Definition read (f : config_file) : outcome ConfigParser :=
  match f with
  | NoFile | Unreadable => Return new_parser
  | Parses cp => Return cp
  | Malformed e => Raised e
  end.


End configparser.

(** ** load_config (lines 43-66) *)

Import configparser.

(** The dictionary returned by [load_config], one field per key. *)
Record Config := mkConfig {
  cfg_model : pystr;
  cfg_device : pystr;
  cfg_compute_type : pystr;
  cfg_key : pystr;
  cfg_auto_type : bool;
  cfg_notifications : bool
}.

Definition defaults : Config :=
  mkConfig (lit "base.en") (lit "cpu") (lit "int8") (lit "f12") true true.

Definition load_config (CONFIG_PATH : config_file) : outcome Config :=
  obind (match CONFIG_PATH with
         | NoFile => Return new_parser
         | _ => read CONFIG_PATH
         end) (fun config =>
  obind (get config (lit "whisper") (lit "model") (cfg_model defaults))
    (fun model =>
  obind (get config (lit "whisper") (lit "device") (cfg_device defaults))
    (fun device =>
  obind (get config (lit "whisper") (lit "compute_type")
           (cfg_compute_type defaults)) (fun compute_type =>
  obind (get config (lit "hotkey") (lit "key") (cfg_key defaults))
    (fun key =>
  obind (getboolean config (lit "behavior") (lit "auto_type") true)
    (fun auto_type =>
  obind (getboolean config (lit "behavior") (lit "notifications") true)
    (fun notifications =>
  Return (mkConfig model device compute_type key auto_type notifications)
  ))))))).

(** ** Exceptions, results, the environment *)

Inductive exn :=
| FileNotFoundError (filename : pystr)  (* an OSError: no such executable *)
| AttributeError (attr : pystr)         (* attribute access on None *)
| Exception (msg : pystr).              (* anything the engine raises *)

Definition is_OSError (e : exn) : bool :=
  match e with
  | FileNotFoundError _ => true
  | _ => false
  end.

(** [str(e)] *)
Definition str_exn (e : exn) : pystr :=
  match e with
  | FileNotFoundError f =>
      lit "[Errno 2] No such file or directory: '" ++ f ++ lit "'"
  | AttributeError a =>
      lit "'NoneType' object has no attribute '" ++ a ++ lit "'"
  | Exception msg => msg
  end.

(** A call returns a value, raises, or never returns. *)
Inductive result (A : Type) :=
| Ok (a : A)
| Raise (e : exn)
| Blocked.
Arguments Ok {A} a.
Arguments Raise {A} e.
Arguments Blocked {A}.

(** The recognition engine object; opaque. *)
Inductive WhisperModel := whisper_model.

Inductive session_type := wayland | x11.

(** Module-level constants of dictate.py (lines 37, 98-103).  [KEY_UPPER]
    is [CONFIG['key'].upper()], the only form in which the key name is
    used by the controller. *)
Record Globals := mkGlobals {
  SESSION_TYPE : session_type;
  HOTKEY : Z;
  MODEL_SIZE : pystr;
  KEY_UPPER : pystr;
  AUTO_TYPE : bool;
  NOTIFICATIONS : bool
}.

(** What the outside world answers. *)
Record Env := mkEnv {
  (** executables present on PATH *)
  which : pystr -> bool;
  (** exit status of a command that was run to completion *)
  returncode : list pystr -> Z;
  (** [WhisperModel(MODEL_SIZE, device=DEVICE, compute_type=COMPUTE_TYPE)] *)
  WhisperModel_new : result WhisperModel;
  (** [model.transcribe(path, beam_size=5, vad_filter=True)] with its
      segment generator consumed *)
  engine_transcribe : pystr -> result (list Segment)
}.

(** ** Events *)

Inductive event :=
| Print (line : pystr)
| NotifyCall (title message icon : pystr) (timeout : N)
| Run (argv : list pystr) (rc : Z)
| Popen (pid : nat) (argv : list pystr)
| Communicate (pid : nat) (input : pystr)
| Terminate (pid : nat)
| Wait (pid : nat)
| TempFileCreated (name : pystr)
| Unlink (name : pystr)
| ModelAssigned
| ModelErrorAssigned (msg : pystr)
| LatchSet
| LatchWaited
| Transcribe (path : pystr).

(** ** The Dictation object and the world around it *)

Record Dictation := mkDictation {
  recording : bool;
  record_process : option nat;
  temp_file : option pystr;       (* the closed NamedTemporaryFile, by name *)
  model : option WhisperModel;
  model_loaded : bool;            (* threading.Event *)
  model_error : option pystr;
  running : bool
}.

(** One atomic step of the loader thread. *)
Inductive loader_op :=
| AssignModel (m : WhisperModel)
| AssignModelError (msg : pystr)
| SetLoaded
| LoaderPrint (line : pystr).

Record World := mkWorld {
  self : Dictation;
  fs : gset pystr;                 (* temporary files on disk *)
  next_pid : nat;
  next_tmp : N;
  loader : list loader_op;         (* what the loader thread still has to do *)
  log : list event
}.

Definition with_self (d : Dictation) (w : World) : World :=
  mkWorld d (fs w) (next_pid w) (next_tmp w) (loader w) (log w).

Definition emit (e : event) (w : World) : World :=
  mkWorld (self w) (fs w) (next_pid w) (next_tmp w) (loader w) (log w ++ [e]).

Definition set_recording (b : bool) (d : Dictation) : Dictation :=
  mkDictation b (record_process d) (temp_file d) (model d) (model_loaded d)
    (model_error d) (running d).

Definition set_record_process (p : option nat) (d : Dictation) : Dictation :=
  mkDictation (recording d) p (temp_file d) (model d) (model_loaded d)
    (model_error d) (running d).

Definition set_temp_file (f : option pystr) (d : Dictation) : Dictation :=
  mkDictation (recording d) (record_process d) f (model d) (model_loaded d)
    (model_error d) (running d).

Definition set_model (m : option WhisperModel) (d : Dictation) : Dictation :=
  mkDictation (recording d) (record_process d) (temp_file d) m
    (model_loaded d) (model_error d) (running d).

Definition set_model_loaded (d : Dictation) : Dictation :=
  mkDictation (recording d) (record_process d) (temp_file d) (model d) true
    (model_error d) (running d).

Definition set_model_error (e : option pystr) (d : Dictation) : Dictation :=
  mkDictation (recording d) (record_process d) (temp_file d) (model d)
    (model_loaded d) e (running d).

(** ** The monad of the main thread *)

Definition M (A : Type) : Type := World -> result A * World.

Definition ret {A} (a : A) : M A := fun w => (Ok a, w).

Definition bind {A B} (m : M A) (k : A -> M B) : M B :=
  fun w =>
    match m w with
    | (Ok a, w') => k a w'
    | (Raise e, w') => (Raise e, w')
    | (Blocked, w') => (Blocked, w')
    end.

Definition raise {A} (e : exn) : M A := fun w => (Raise e, w).

Declare Scope py_scope.
Delimit Scope py_scope with py.
Notation "x <- m ;; k" := (bind m (fun x => k))
  (at level 100, m at next level, right associativity) : py_scope.
Notation "m ;; k" := (bind m (fun _ => k))
  (at level 100, right associativity) : py_scope.
Local Open Scope py_scope.

(** [try: body except Exception as e: handler e] *)
Definition try_except {A} (body : M A) (handler : exn -> M A) : M A :=
  fun w =>
    match body w with
    | (Raise e, w') => handler e w'
    | r => r
    end.

(** [try: body finally: cleanup] *)
Definition try_finally {A} (body : M A) (cleanup : M unit) : M A :=
  fun w =>
    match body w with
    | (Blocked, w') => (Blocked, w')
    | (r, w') =>
        match cleanup w' with
        | (Ok _, w'') => (r, w'')
        | (Raise e, w'') => (Raise e, w'')
        | (Blocked, w'') => (Blocked, w'')
        end
    end.

Definition get_self : M Dictation := fun w => (Ok (self w), w).

Definition update (f : Dictation -> Dictation) : M unit :=
  fun w => (Ok tt, with_self (f (self w)) w).

Definition perform (e : event) : M unit := fun w => (Ok tt, emit e w).

Definition print (line : pystr) : M unit := perform (Print line).

(** ** Operating-system and library calls *)

Section Program.

Variable g : Globals.
Variable env : Env.

(** [subprocess.run(argv, ...)] without [check]: the exit status is
    returned, a missing executable raises. *)
Definition subprocess_run (argv : list pystr) : M Z :=
  fun w =>
    if which env (hd [] argv)
    then (Ok (returncode env argv), emit (Run argv (returncode env argv)) w)
    else (Raise (FileNotFoundError (hd [] argv)), w).

(** [subprocess.Popen(argv, ...)] *)
Definition subprocess_Popen (argv : list pystr) : M nat :=
  fun w =>
    if which env (hd [] argv)
    then (Ok (next_pid w),
          mkWorld (self w) (fs w) (S (next_pid w)) (next_tmp w) (loader w)
            (log w ++ [Popen (next_pid w) argv]))
    else (Raise (FileNotFoundError (hd [] argv)), w).

(** The name of the [n]-th temporary file; [mkstemp] never hands out a
    name twice. *)
Definition temp_name (n : N) (suffix : pystr) : pystr :=
  lit "/tmp/tmp" ++ py_str_int n ++ suffix.

(** [tempfile.NamedTemporaryFile(suffix=suffix, delete=False)] followed by
    [close()]: the file stays on disk. *)
Definition NamedTemporaryFile (suffix : pystr) : M pystr :=
  fun w =>
    let name := temp_name (next_tmp w) suffix in
    (Ok name,
     mkWorld (self w) ({[ name ]} ∪ fs w) (next_pid w) (N.succ (next_tmp w))
       (loader w) (log w ++ [TempFileCreated name])).

(** [os.path.exists(name)] *)
Definition os_path_exists (name : pystr) : M bool :=
  fun w => (Ok (bool_decide (name ∈ fs w)), w).

(** [os.unlink(name)] *)
Definition os_unlink (name : pystr) : M unit :=
  fun w =>
    (Ok tt,
     mkWorld (self w) (fs w ∖ {[ name ]}) (next_pid w) (next_tmp w)
       (loader w) (log w ++ [Unlink name])).

(** ** The loader thread: _load_model (lines 120-132) *)

Definition _load_model : list loader_op :=
  match WhisperModel_new env with
  | Ok m =>
      [ AssignModel m; SetLoaded;
        LoaderPrint (lit "Model loaded. Ready for dictation!");
        LoaderPrint (lit "Hold [" ++ KEY_UPPER g
                       ++ lit "] to record, release to transcribe.");
        LoaderPrint (lit "Press Ctrl+C to quit.") ]
  | Raise e =>
      [ AssignModelError (str_exn e); SetLoaded;
        LoaderPrint (lit "Failed to load model: " ++ str_exn e) ]
      ++ (if py_contains (lit "cudnn") (py_lower (str_exn e))
             || py_contains (lit "cuda") (py_lower (str_exn e))
          then [ LoaderPrint (lit "Hint: Try setting device = cpu in your config, or install cuDNN.") ]
          else [])
  | Blocked => []
  end.

Definition loader_exec (op : loader_op) (w : World) : World :=
  match op with
  | AssignModel m => emit ModelAssigned (with_self (set_model (Some m) (self w)) w)
  | AssignModelError msg =>
      emit (ModelErrorAssigned msg)
        (with_self (set_model_error (Some msg) (self w)) w)
  | SetLoaded => emit LatchSet (with_self (set_model_loaded (self w)) w)
  | LoaderPrint line => emit (Print line) w
  end.

(** The loader thread runs its next atomic step. *)
Definition loader_step (w : World) : World :=
  match loader w with
  | [] => w
  | op :: rest =>
      loader_exec op
        (mkWorld (self w) (fs w) (next_pid w) (next_tmp w) rest (log w))
  end.

(** [self.model_loaded.wait()]: the main thread sleeps while the loader
    runs, and wakes up once the latch is set; it sleeps for ever if the
    loader ends without setting it. *)
Fixpoint await_latch (steps : nat) (w : World) : result unit * World :=
  if model_loaded (self w) then (Ok tt, emit LatchWaited w)
  else match steps with
       | O => (Blocked, w)
       | S steps' => await_latch steps' (loader_step w)
       end.

Definition model_loaded_wait : M unit :=
  fun w => await_latch (length (loader w)) w.

(** [Dictation.__init__]: the object right after construction, the loader
    thread started. *)
Definition Dictation_init : World :=
  mkWorld (mkDictation false None None None false None true)
    ∅ 0 0 _load_model
    [ Print (lit "Loading Whisper model (" ++ MODEL_SIZE g ++ lit ")...") ].

(** ** notify (lines 134-149) *)

Definition notify_send_argv (title message icon : pystr) (timeout : N)
  : list pystr :=
  [ lit "notify-send";
    lit "-a"; lit "SoupaWhisper";
    lit "-i"; icon;
    lit "-t"; py_str_int timeout;
    lit "-h"; lit "string:x-canonical-private-synchronous:soupawhisper";
    title;
    message ].

Definition notify (title message icon : pystr) (timeout : N) : M unit :=
  perform (NotifyCall title message icon timeout) ;;
  if negb (NOTIFICATIONS g) then ret tt
  else
    _ <- subprocess_run (notify_send_argv title message icon timeout) ;;
    ret tt.

(** ** start_recording (lines 151-173) *)

Definition arecord_argv (path : pystr) : list pystr :=
  [ lit "arecord"; lit "-f"; lit "S16_LE"; lit "-r"; lit "16000";
    lit "-c"; lit "1"; lit "-t"; lit "wav"; path ].

Definition start_recording : M unit :=
  d <- get_self ;;
  if recording d || truthy_opt (model_error d) then ret tt
  else
    update (set_recording true) ;;
    f <- NamedTemporaryFile (lit ".wav") ;;
    update (set_temp_file (Some f)) ;;
    p <- subprocess_Popen (arecord_argv f) ;;
    update (set_record_process (Some p)) ;;
    print (lit "Recording...") ;;
    notify (lit "Recording...")
      (lit "Release " ++ KEY_UPPER g ++ lit " when done")
      (lit "audio-input-microphone") 30000.

(** ** stop_recording (lines 175-240) *)

(** Lines 181-184. *)
Definition stop_capture : M unit :=
  d <- get_self ;;
  match record_process d with
  | Some p =>
      perform (Terminate p) ;;
      perform (Wait p) ;;
      update (set_record_process None)
  | None => ret tt
  end.

(** [self.temp_file.name] *)
Definition temp_file_name : M pystr :=
  d <- get_self ;;
  match temp_file d with
  | Some name => ret name
  | None => raise (AttributeError (lit "name"))
  end.

(** Lines 199-203: [self.model.transcribe(...)], segments consumed. *)
Definition model_transcribe (path : pystr) : M (list Segment) :=
  d <- get_self ;;
  match model d with
  | None => raise (AttributeError (lit "transcribe"))
  | Some _ =>
      perform (Transcribe path) ;;
      (fun w => (engine_transcribe env path, w))
  end.

(** Lines 208-219: copy to the clipboard. *)
Definition clipboard_argv : list pystr :=
  match SESSION_TYPE g with
  | wayland => [ lit "wl-copy" ]
  | x11 => [ lit "xclip"; lit "-selection"; lit "clipboard" ]
  end.

Definition copy_to_clipboard (text : pystr) : M unit :=
  process <- subprocess_Popen clipboard_argv ;;
  perform (Communicate process text).

(** Lines 222-226: type into the active input field. *)
Definition typing_argv (text : pystr) : list pystr :=
  match SESSION_TYPE g with
  | wayland => [ lit "wtype"; text ]
  | x11 => [ lit "xdotool"; lit "type"; lit "--clearmodifiers"; text ]
  end.

Definition type_text (text : pystr) : M unit :=
  if AUTO_TYPE g then
    _ <- subprocess_run (typing_argv text) ;;
    ret tt
  else ret tt.

(** Line 229: [text[:100] + ("..." if len(text) > 100 else "")]. *)
Definition preview (text : pystr) : pystr :=
  firstn 100 text ++ (if (100 <? length text)%nat then lit "..." else []).

(** Lines 199-232: the body of [try]. *)
Definition transcribe_and_deliver : M unit :=
  path <- temp_file_name ;;
  segments <- model_transcribe path ;;
  let text := transcript_of segments in
  if truthy text then
    copy_to_clipboard text ;;
    type_text text ;;
    print (lit "Copied: " ++ text) ;;
    notify (lit "Copied!") (preview text) (lit "emblem-ok-symbolic") 3000
  else
    print (lit "No speech detected") ;;
    notify (lit "No speech detected") (lit "Try speaking louder")
      (lit "dialog-warning") 2000.

(** Lines 234-236: [except Exception as e]. *)
Definition on_exception (e : exn) : M unit :=
  print (lit "Error: " ++ str_exn e) ;;
  notify (lit "Error") (firstn 50 (str_exn e)) (lit "dialog-error") 3000.

(** Lines 237-240: [finally]. *)
Definition cleanup : M unit :=
  d <- get_self ;;
  match temp_file d with
  | Some name =>
      present <- os_path_exists name ;;
      if present then os_unlink name else ret tt
  | None => ret tt
  end.

Definition stop_recording : M unit :=
  d <- get_self ;;
  if negb (recording d) then ret tt
  else
    update (set_recording false) ;;
    stop_capture ;;
    print (lit "Transcribing...") ;;
    notify (lit "Transcribing...") (lit "Processing your speech")
      (lit "emblem-synchronizing") 30000 ;;
    model_loaded_wait ;;
    d <- get_self ;;
    if truthy_opt (model_error d) then
      print (lit "Cannot transcribe: model failed to load") ;;
      notify (lit "Error") (lit "Model failed to load") (lit "dialog-error") 3000
    else
      try_finally
        (try_except transcribe_and_deliver on_exception)
        cleanup.

(** ** The event loop: run (lines 260-271) *)

Record InputEvent := mkInputEvent {
  ev_type : Z;
  ev_code : Z;
  ev_value : Z
}.

Definition EV_KEY : Z := 1.

Definition on_event (event : InputEvent) : M unit :=
  if (ev_type event =? EV_KEY)%Z && (ev_code event =? HOTKEY g)%Z then
    if (ev_value event =? 1)%Z then start_recording
    else if (ev_value event =? 0)%Z then stop_recording
    else ret tt
  else ret tt.

(** [for event in dev.read(): ...] *)
Fixpoint for_events (events : list InputEvent) : M unit :=
  match events with
  | [] => ret tt
  | event :: rest => on_event event ;; for_events rest
  end.

(** One device found readable by [select]: its pending events are
    handled inside [try: ... except OSError: pass]. *)
Definition read_device (events : list InputEvent) : M unit :=
  fun w =>
    match for_events events w with
    | (Raise e, w') => if is_OSError e then (Ok tt, w') else (Raise e, w')
    | r => r
    end.

(** ** Interleavings of the two threads *)

Inductive main_status :=
| Live
| Crashed (e : exn)      (* an exception left [run]: the process is gone *)
| Hung.                  (* the main thread sleeps on the latch for ever *)

Record System := mkSystem {
  world : World;
  main : main_status
}.

(** What the scheduler lets happen next: one atomic step of the loader
    thread, or the main loop handling the pending events of one device
    (to completion: the loop is single-threaded). *)
Inductive sched :=
| LoaderStep
| DeviceRead (events : list InputEvent).

Definition step (sys : System) (s : sched) : System :=
  match main sys with
  | Live =>
      match s with
      | LoaderStep => mkSystem (loader_step (world sys)) Live
      | DeviceRead events =>
          match read_device events (world sys) with
          | (Ok _, w) => mkSystem w Live
          | (Raise e, w) => mkSystem w (Crashed e)
          | (Blocked, w) => mkSystem w Hung
          end
      end
  | _ => sys
  end.

Definition boot : System := mkSystem Dictation_init Live.

Definition run (schedule : list sched) : System :=
  fold_left step schedule boot.

(** The hotkey going down and coming up, as the devices report them. *)
Definition key_down : InputEvent := mkInputEvent EV_KEY (HOTKEY g) 1.
Definition key_up : InputEvent := mkInputEvent EV_KEY (HOTKEY g) 0.

End Program.

Arguments lit : simpl never.
Arguments py_str_int : simpl never.
Arguments temp_name : simpl never.
Arguments arecord_argv : simpl never.
Arguments notify_send_argv : simpl never.

(** ** Start-up code: session family, hotkey, keyboards, dependencies *)

(** [detect_session_type] (lines 25-34), on the process environment.
    [py_lower] stands for [str.lower]: no code point outside ASCII
    lower-cases to a letter of "wayland" or "x11", so the membership test
    is that of CPython.  The returned string is represented by the
    session family it names. *)
Definition detect_session_type (environ : gmap pystr pystr) : session_type :=
  let session := py_lower (default [] (environ !! lit "XDG_SESSION_TYPE")) in
  if pystr_eqb session (lit "wayland") then wayland
  else if pystr_eqb session (lit "x11") then x11
  else if truthy_opt (environ !! lit "WAYLAND_DISPLAY") then wayland
  else if truthy_opt (environ !! lit "DISPLAY") then x11
  else x11.

(** [get_hotkey] (lines 72-81).  [str.lower], [str.upper] and the table
    [evdev.ecodes.ecodes] with its constant [KEY_F12] belong to libraries
    and are taken as they come.  The result is the key code and what was
    printed. *)
Section Hotkey.

Variable str_lower str_upper : pystr -> pystr.
Variable ecodes : gmap pystr Z.
Variable KEY_F12 : Z.

Definition get_hotkey (key_name : pystr) : Z * list event :=
  let key_name := str_lower key_name in
  let evdev_name := lit "KEY_" ++ str_upper key_name in
  match ecodes !! evdev_name with
  | Some code => (code, [])
  | None =>
      (KEY_F12,
       [ Print (lit "Unknown key: " ++ key_name ++ lit ", defaulting to f12") ])
  end.

End Hotkey.

(** An input device as [find_keyboards] sees it: its name and
    [capabilities(verbose=False)], event types to supported codes. *)
Record InputDevice := mkInputDevice {
  dev_name : pystr;
  dev_capabilities : gmap Z (list Z)
}.

Definition KEY_A : Z := 30.

(** Lines 91-93: the test of one device. *)
Definition is_keyboard (hotkey : Z) (dev : InputDevice) : bool :=
  match dev_capabilities dev !! EV_KEY with
  | Some keys => existsb (Z.eqb KEY_A) keys && existsb (Z.eqb hotkey) keys
  | None => false
  end.

(** [find_keyboards] (lines 84-95): the loop appends to [keyboards]. *)
Definition find_keyboards (hotkey : Z) (devices : list InputDevice)
  : list InputDevice :=
  fold_left
    (fun keyboards dev =>
       if is_keyboard hotkey dev then keyboards ++ [dev] else keyboards)
    devices [].

(** How a piece of start-up code ends: it returns, it ends the process
    with [sys.exit(code)], it raises, or it never returns. *)
Inductive exit_or (A : Type) :=
| Returns (a : A)
| Exits (code : Z)
| Raises (e : exn)
| Never.
Arguments Returns {A} a.
Arguments Exits {A} code.
Arguments Raises {A} e.
Arguments Never {A}.

(** [Dictation.run], lines 248-253: the keyboards, or exit status 1; with
    what is printed. *)
Definition run_start (hotkey : Z) (devices : list InputDevice)
  : exit_or (list InputDevice) * list event :=
  let keyboards := find_keyboards hotkey devices in
  match keyboards with
  | [] =>
      (Exits 1,
       [ Print (lit "No keyboard devices found. Check /dev/input permissions (need 'input' group).") ])
  | _ :: _ =>
      (Returns keyboards,
       [ Print (lit "Listening on: "
                  ++ py_join (lit ", ") (map dev_name keyboards)) ])
  end.

Definition session_name (s : session_type) : pystr :=
  match s with
  | wayland => lit "wayland"
  | x11 => lit "x11"
  end.

(** One test of [check_dependencies]: [which cmd] is run, and the pair is
    appended to [missing] when it does not exit with 0. *)
Definition probe (env : Env) (cmd pkg : pystr)
  (missing : list (pystr * pystr)) : M (list (pystr * pystr)) :=
  rc <- subprocess_run env [lit "which"; cmd] ;;
  ret (if (rc =? 0)%Z then missing else missing ++ [(cmd, pkg)]).

(** Lines 276-292. *)
Definition missing_dependencies (g : Globals) (env : Env)
  : M (list (pystr * pystr)) :=
  missing <- probe env (lit "arecord") (lit "alsa-utils") [] ;;
  match SESSION_TYPE g with
  | wayland =>
      missing <- probe env (lit "wl-copy") (lit "wl-clipboard") missing ;;
      if AUTO_TYPE g
      then probe env (lit "wtype") (lit "wtype") missing
      else ret missing
  | x11 =>
      missing <- probe env (lit "xclip") (lit "xclip") missing ;;
      if AUTO_TYPE g
      then probe env (lit "xdotool") (lit "xdotool") missing
      else ret missing
  end.

(** [check_dependencies] (lines 274-298). *)
Definition check_dependencies (g : Globals) (env : Env)
  : World -> exit_or unit * World :=
  fun w =>
    match missing_dependencies g env w with
    | (Ok [], w') => (Returns tt, w')
    | (Ok ((_ :: _) as missing), w') =>
        (Exits 1,
         fold_left (fun w e => emit e w)
           (Print (lit "Missing dependencies (session: "
                     ++ session_name (SESSION_TYPE g) ++ lit "):")
            :: map (fun cp =>
                      Print (lit "  " ++ fst cp
                               ++ lit " - install with: sudo apt install "
                               ++ snd cp))
                 missing)
           w')
    | (Raise e, w') => (Raises e, w')
    | (Blocked, w') => (Never, w')
    end.

(** ** Vocabulary of the properties *)

(** *** The transcript, in the words of its description *)

Definition all_space (s : pystr) : Prop := Forall (fun c => py_isspace c = true) s.

(** [t] is [s] without its surrounding white space. *)
Definition trimmed_of (s t : pystr) : Prop :=
  exists l r,
    s = l ++ t ++ r /\ all_space l /\ all_space r /\
    (forall c t', t = c :: t' -> py_isspace c = false) /\
    (forall t' c, t = t' ++ [c] -> py_isspace c = false).

Fixpoint intersperse (sep : pystr) (parts : list pystr) : list pystr :=
  match parts with
  | [] => []
  | [x] => [x]
  | x :: rest => x :: sep :: intersperse sep rest
  end.

(** The parts in order, one space between neighbours. *)
Definition joined_by_single_spaces (parts : list pystr) : pystr :=
  concat (intersperse [0x20] parts).

(** *** Sessions *)

Definition is_arecord (argv : list pystr) : bool :=
  pystr_eqb (hd [] argv) (lit "arecord").

(** The capture processes that were started and not yet reaped. *)
Definition live_step (live : list nat) (e : event) : list nat :=
  match e with
  | Popen pid argv => if is_arecord argv then live ++ [pid] else live
  | Wait pid => List.filter (fun p => negb (p =? pid)%nat) live
  | _ => live
  end.

Definition live_captures (tr : list event) : list nat :=
  fold_left live_step tr [].

Definition handle_list (p : option nat) : list nat :=
  match p with
  | Some pid => [pid]
  | None => []
  end.

(** *** The output dispatcher *)

Definition dispatcher_command (cmd : pystr) : bool :=
  pystr_eqb cmd (lit "wl-copy") || pystr_eqb cmd (lit "xclip")
  || pystr_eqb cmd (lit "wtype") || pystr_eqb cmd (lit "xdotool").

Definition is_dispatch (e : event) : bool :=
  match e with
  | Popen _ argv => dispatcher_command (hd [] argv)
  | Run argv _ => dispatcher_command (hd [] argv)
  | Communicate _ _ => true
  | _ => false
  end.

(** *** Ordering in a log *)

(** Every occurrence of [b] comes after an occurrence of [a]. *)
Definition preceded_by (a b : event) (tr : list event) : Prop :=
  forall pre post, tr = pre ++ b :: post -> In a pre.

Definition capture_stop (p : option nat) : list event :=
  match p with
  | Some pid => [Terminate pid; Wait pid]
  | None => []
  end.

Definition count_unlinks (name : pystr) (tr : list event) : nat :=
  length (List.filter (fun e => match e with
                           | Unlink n => pystr_eqb n name
                           | _ => false
                           end) tr).

(** Events of the loader thread. *)
Definition loader_event (e : event) : bool :=
  match e with
  | ModelAssigned | ModelErrorAssigned _ | LatchSet | Print _ => true
  | _ => false
  end.

(** Events that neither start nor reap a capture process and do not call
    the engine. *)
Definition neutral (e : event) : bool :=
  match e with
  | Popen _ argv => negb (is_arecord argv)
  | Wait _ | Transcribe _ => false
  | _ => true
  end.

(** At every point of the trace at most one capture process is alive. *)
Definition at_most_one_session (tr : list event) : Prop :=
  forall pre, pre `prefix_of` tr -> (length (live_captures pre) <= 1)%nat.

(** Every call into the engine comes after the loader has assigned the
    model and set the latch. *)
Definition engine_guarded (tr : list event) : Prop :=
  forall path,
    preceded_by LatchSet (Transcribe path) tr /\
    preceded_by ModelAssigned (Transcribe path) tr.

(** The latch and the model attribute are only ever written by the loader
    thread, which logs it. *)
Definition loader_witnessed (w : World) : Prop :=
  (model_loaded (self w) = true -> In LatchSet (log w)) /\
  (model (self w) <> None -> In ModelAssigned (log w)).

(** What [w1] shares with [w] when only the loader thread ran in between. *)
Definition same_session (w w1 : World) : Prop :=
  recording (self w1) = recording (self w) /\
  record_process (self w1) = record_process (self w) /\
  temp_file (self w1) = temp_file (self w) /\
  fs w1 = fs w /\ next_pid w1 = next_pid w /\ next_tmp w1 = next_tmp w.

(** The invariant of the controller. *)
Record Inv (w : World) : Prop := mkInv {
  inv_live : live_captures (log w) = handle_list (record_process (self w));
  inv_idle : recording (self w) = false -> record_process (self w) = None;
  inv_one : at_most_one_session (log w);
  inv_loader : loader_witnessed w;
  inv_guarded : engine_guarded (log w)
}.

(** The capture process, if there was one, has been reaped. *)
Definition Idle (w : World) : Prop :=
  Inv w /\ record_process (self w) = None.

(** ... and the latch is set. *)
Definition Loaded (w : World) : Prop :=
  Idle w /\ model_loaded (self w) = true.

(** [m] keeps [P], however it ends. *)
Definition preserves {A} (P : World -> Prop) (m : M A) : Prop :=
  forall w, P w -> P (snd (m w)).

(** [m] leaves the object alone and logs neutral events only. *)
Definition quiet {A} (m : M A) : Prop :=
  forall w,
    self (snd (m w)) = self w /\
    exists evs, log (snd (m w)) = log w ++ evs /\
                Forall (fun e => neutral e = true) evs.

(** [P] looks at the object and the log, and survives neutral events. *)
Definition stable (P : World -> Prop) : Prop :=
  forall w w' evs,
    P w -> self w' = self w -> log w' = log w ++ evs ->
    Forall (fun e => neutral e = true) evs -> P w'.

(** *** Configuration *)

(** The raw value the parser holds for an option of a section, looked up
    in the section and then in DEFAULT; [None] when the section or the
    option is missing. *)
Definition raw_value (cp : ConfigParser) (section opt : pystr)
  : option pystr :=
  match unify_values cp section with
  | None => None
  | Some d => chain_lookup d (optionxform opt)
  end.


(** The value contains no percent sign, so interpolation leaves it alone. *)
Definition plain (value : pystr) : bool := negb (existsb (N.eqb 0x25) value).

(** The events a cycle added to the log. *)
Definition cycle_events (g : Globals) (env : Env) (w : World) : list event :=
  skipn (length (log w)) (log (snd (stop_recording g env w))).

(** ** Concrete settings and environments *)

Definition g_x11 : Globals :=
  mkGlobals x11 88 (lit "base.en") (lit "F12") true true.

Definition two_segments : list Segment :=
  [ mkSegment (lit "hello"); mkSegment (lit " world ") ].

(** Everything installed, the model loads, the engine hears two segments. *)
Definition env_ready : Env :=
  mkEnv (fun _ => true) (fun _ => 0%Z) (Ok whisper_model)
    (fun _ => Ok two_segments).

(** The model fails to load with the message [msg]. *)
Definition env_load_fails (msg : pystr) : Env :=
  mkEnv (fun _ => true) (fun _ => 0%Z) (Raise (Exception msg))
    (fun _ => Ok two_segments).

(** notify-send is not installed. *)
Definition env_without_notify_send : Env :=
  mkEnv (fun cmd => negb (pystr_eqb cmd (lit "notify-send")))
    (fun _ => 0%Z) (Ok whisper_model) (fun _ => Ok two_segments).

(** The engine returns the given segments. *)
Definition env_hears (segments : list Segment) : Env :=
  mkEnv (fun _ => true) (fun _ => 0%Z) (Ok whisper_model)
    (fun _ => Ok segments).

(** The loader has finished, then the key went down. *)
Definition w_recording (env : Env) : World :=
  world (run g_x11 env [LoaderStep; LoaderStep; DeviceRead [key_down g_x11]]).

(** The loader has finished, no key was touched. *)
Definition w_idle (env : Env) : World :=
  world (run g_x11 env [LoaderStep; LoaderStep]).

(** The key goes down and up while the model is still loading. *)
Definition sys_released_while_loading (env : Env) : System :=
  run g_x11 env [DeviceRead [key_down g_x11; key_up g_x11]].

(** Two segments of white space only. *)
Definition blank_segments : list Segment :=
  [ mkSegment (lit " "); mkSegment (lit "  ") ].

(** The parser state of a file that only sets the model. *)
Definition parser_model_small : ConfigParser :=
  mkConfigParser ∅ {[ lit "whisper" := {[ lit "model" := lit "small" ]} ]}.



(** A config file that only sets the model. *)
Definition file_model_small : config_file := Parses parser_model_small.

(** *** Vocabulary of the further properties *)

(** The commands the controller needs, by session family and auto_type. *)
Definition required_commands (g : Globals) : list pystr :=
  lit "arecord" :: hd [] (clipboard_argv g)
  :: (if AUTO_TYPE g then [hd [] (typing_argv g [])] else []).

(** The [which] utility answers truthfully. *)
Definition which_sound (env : Env) : Prop :=
  forall cmd,
    returncode env [lit "which"; cmd] = 0%Z <-> which env cmd = true.

(** Two environments that differ at most in what they say about one
    command: whether it is installed, and what [which] answers for it. *)
Definition same_but_for (cmd : pystr) (env env' : Env) : Prop :=
  (forall c, c <> cmd -> which env' c = which env c) /\
  (forall argv, argv <> [lit "which"; cmd] ->
                returncode env' argv = returncode env argv) /\
  WhisperModel_new env' = WhisperModel_new env /\
  engine_transcribe env' = engine_transcribe env.

Definition is_notify_send (argv : list pystr) : bool :=
  pystr_eqb (hd [] argv) (lit "notify-send").

(** [argv] is the typing command of the session, for some text. *)
Definition is_typing (g : Globals) (argv : list pystr) : bool :=
  bool_decide (argv = typing_argv g (List.last argv [])).

(** [argv] is the capture command, for some file. *)
Definition is_capture (argv : list pystr) : bool :=
  bool_decide (argv = arecord_argv (List.last argv [])).

(** Events of the feedback to the user: a line on the console, a call of
    [notify], and the notification command when notifications are on. *)
Definition feedback_event (g : Globals) (e : event) : bool :=
  match e with
  | Print _ | NotifyCall _ _ _ _ => true
  | Run argv _ => NOTIFICATIONS g && is_notify_send argv
  | _ => false
  end.

(** What the handling of a Down edge may log: feedback, the creation of
    the sound file, the start of the capture. *)
Definition down_event (g : Globals) (e : event) : bool :=
  feedback_event g e
  || match e with
     | TempFileCreated _ => true
     | Popen _ argv => is_capture argv
     | _ => false
     end.

(** What the handling of an Up edge may log: feedback, the end of the
    capture, the steps of the loader thread while it is waited for, the
    call of the engine, the clipboard command of the session, its typing
    command when auto_type is on, the removal of the file. *)
Definition up_event (g : Globals) (e : event) : bool :=
  feedback_event g e
  || match e with
     | Terminate _ | Wait _ | LatchWaited | Transcribe _ | Unlink _
     | Communicate _ _ | ModelAssigned | ModelErrorAssigned _ | LatchSet =>
         true
     | Popen _ argv => bool_decide (argv = clipboard_argv g)
     | Run argv _ => AUTO_TYPE g && is_typing g argv
     | _ => false
     end.

Definition known_event (g : Globals) (e : event) : bool :=
  down_event g e || up_event g e.


(** [w'] is [w] with events [evs] logged, all of them allowed by [P]. *)
Definition logged (P : event -> bool) (w w' : World) : Prop :=
  exists evs, log w' = log w ++ evs /\ Forall (fun e => P e = true) evs.

(** How a computation may end other than by returning. *)
Definition outcome_in {A} (raises : exn -> Prop) (blocks : Prop)
  (r : result A) : Prop :=
  match r with
  | Ok _ => True
  | Raise e => raises e
  | Blocked => blocks
  end.

(** The exception is an [OSError], which the loop of [run] swallows. *)
Definition OSError (e : exn) : Prop := is_OSError e = true.

(** Started in a world of [L], [m] ends in a world of [L]; it raises only
    what [raises] allows and never returns only if [blocks]. *)
Definition behaves {A} (L : World -> Prop) (raises : exn -> Prop)
  (blocks : Prop) (m : M A) : Prop :=
  forall w, L w -> L (snd (m w)) /\ outcome_in raises blocks (fst (m w)).

(** The part of the world the loader thread writes: what it still has to
    do, and the three attributes of the model state. *)
Definition loader_part (w : World)
  : list loader_op * (option WhisperModel * bool * option pystr) :=
  (loader w, (model (self w), model_loaded (self w), model_error (self w))).

(** [L] looks at the loader's part and at the log, and survives the
    logging of events of [E]. *)
Definition steady (E : event -> bool) (L : World -> Prop) : Prop :=
  forall w w' evs,
    L w -> loader_part w' = loader_part w -> log w' = log w ++ evs ->
    Forall (fun e => E e = true) evs -> L w'.

(** One step of the loader thread on its part. *)
Definition loader_part_step
  (s : list loader_op * (option WhisperModel * bool * option pystr))
  : list loader_op * (option WhisperModel * bool * option pystr) :=
  match s with
  | ([], _) => s
  | (op :: rest, (m, l, e)) =>
      match op with
      | AssignModel m' => (rest, (Some m', l, e))
      | AssignModelError msg => (rest, (m, l, Some msg))
      | SetLoaded => (rest, (m, true, e))
      | LoaderPrint _ => (rest, (m, l, e))
      end
  end.

Definition advance (k : nat)
  (s : list loader_op * (option WhisperModel * bool * option pystr))
  : list loader_op * (option WhisperModel * bool * option pystr) :=
  Nat.iter k loader_part_step s.


(** The hotkey being pressed or released: what [run] reacts to. *)
Definition is_edge (g : Globals) (event : InputEvent) : bool :=
  (ev_type event =? EV_KEY)%Z && (ev_code event =? HOTKEY g)%Z
  && ((ev_value event =? 1)%Z || (ev_value event =? 0)%Z).




(** Events that show that something was transcribed or delivered, or
    that a sound file was removed. *)
Definition is_result (e : event) : bool :=
  match e with
  | Transcribe _ | Communicate _ _ | Unlink _ => true
  | _ => false
  end.

Definition is_loader_print (op : loader_op) : bool :=
  match op with
  | LoaderPrint _ => true
  | _ => false
  end.

(** The model state of the object: the model, the latch, the error. *)
Definition model_state (w : World)
  : option WhisperModel * bool * option pystr :=
  (model (self w), model_loaded (self w), model_error (self w)).

(** The outcome of the constructor is recorded in the model state. *)
Definition outcome_recorded (env : Env)
  (st : option WhisperModel * bool * option pystr) : Prop :=
  match WhisperModel_new env with
  | Ok m => fst (fst st) = Some m /\ snd st = None
  | Raise e => fst (fst st) = None /\ snd st = Some (str_exn e)
  | Blocked => False
  end.

(** Once the latch is set, the loader thread has only lines left to
    print, and the outcome is recorded. *)
Definition settled (env : Env)
  (s : list loader_op * (option WhisperModel * bool * option pystr)) : Prop :=
  snd (fst (snd s)) = true ->
  forallb is_loader_print (fst s) = true /\ outcome_recorded env (snd s).

(** *** Further concrete inputs *)

Definition ascii_upper (s : pystr) : pystr :=
  map (fun c => if (0x61 <=? c) && (c <=? 0x7A) then c - 0x20 else c) s.

(** A few entries of [evdev.ecodes.ecodes]. *)
Definition ecodes_sample : gmap pystr Z :=
  {[ lit "KEY_F12" := 88%Z; lit "KEY_F9" := 67%Z; lit "KEY_A" := 30%Z ]}.

Definition a_keyboard : InputDevice :=
  mkInputDevice (lit "AT Translated Set 2 keyboard")
    {[ 1%Z := [1; 30; 88]%Z ]}.

Definition a_mouse : InputDevice :=
  mkInputDevice (lit "USB Optical Mouse")
    {[ 1%Z := [272; 273]%Z; 2%Z := [0; 1]%Z ]}.

(** As [env_ready], with one command not installed. *)
Definition env_without (cmd : pystr) : Env :=
  mkEnv (fun c => negb (pystr_eqb c cmd)) (fun _ => 0%Z) (Ok whisper_model)
    (fun _ => Ok two_segments).


(** A config that sets the model and a boolean in capitals. *)
Definition parser_small_no_typing : ConfigParser :=
  mkConfigParser ∅
    {[ lit "whisper" := {[ lit "model" := lit "small" ]};
       lit "behavior" := {[ lit "auto_type" := lit "No" ]} ]}.

(** * Properties *)

(** ** The transcript (line 205) *)

Lemma py_lstrip_spec (s : pystr) :
  exists l, s = l ++ py_lstrip s /\ all_space l /\
            (forall c t', py_lstrip s = c :: t' -> py_isspace c = false).
Proof.
  induction s as [|c s IH]; simpl.
  - exists []. repeat split; [constructor | discriminate].
  - destruct (py_isspace c) eqn:Hc.
    + destruct IH as (l & Hs & Hl & Hhd).
      exists (c :: l). repeat split.
      * simpl. congruence.
      * constructor; assumption.
      * exact Hhd.
    + exists []. repeat split; [constructor |].
      intros c' t' Heq. injection Heq as <- _. exact Hc.
Qed.

Lemma py_rstrip_spec (s : pystr) :
  exists r, s = py_rstrip s ++ r /\ all_space r /\
            (forall t' c, py_rstrip s = t' ++ [c] -> py_isspace c = false).
Proof.
  unfold py_rstrip.
  destruct (py_lstrip_spec (rev s)) as (l & Hs & Hl & Hhd).
  exists (rev l). repeat split.
  - rewrite <- rev_app_distr, <- Hs. symmetry. apply rev_involutive.
  - apply List.Forall_forall. intros x Hx. apply in_rev in Hx.
    exact (proj1 (List.Forall_forall _ _) Hl x Hx).
  - intros t' c Heq. apply (Hhd c (rev t')).
    rewrite <- (rev_involutive (py_lstrip (rev s))), Heq.
    rewrite rev_app_distr. reflexivity.
Qed.

Lemma py_strip_trimmed (s : pystr) : trimmed_of s (py_strip s).
Proof.
  unfold py_strip.
  destruct (py_lstrip_spec s) as (l & Hs & Hl & Hhd).
  destruct (py_rstrip_spec (py_lstrip s)) as (r & Ht & Hr & Hlast).
  exists l, r. repeat split; try assumption.
  - rewrite <- Ht. exact Hs.
  - intros c t' Heq. apply (Hhd c (t' ++ r)).
    rewrite Ht at 1. rewrite Heq. reflexivity.
Qed.

Lemma py_join_single_space (parts : list pystr) :
  py_join (lit " ") parts = joined_by_single_spaces parts.
Proof.
  unfold joined_by_single_spaces.
  induction parts as [|x [|y rest] IH].
  - reflexivity.
  - simpl. symmetry. apply app_nil_r.
  - change (py_join (lit " ") (x :: y :: rest))
      with (x ++ [0x20] ++ py_join (lit " ") (y :: rest)).
    rewrite IH. reflexivity.
Qed.

(** The trimmed text of a string is determined by [trimmed_of]. *)
Lemma all_space_strip_nil (s : pystr) : all_space s -> py_lstrip s = [].
Proof.
  induction 1 as [|c s Hc _ IH]; simpl; [reflexivity|].
  rewrite Hc. exact IH.
Qed.

Lemma py_lstrip_app_space (l x : pystr) :
  all_space l -> py_lstrip (l ++ x) = py_lstrip x.
Proof.
  induction 1 as [|c l Hc _ IH]; simpl; [reflexivity|].
  rewrite Hc. exact IH.
Qed.

(** [trimmed_of] determines the trimmed text: it is what [strip] returns. *)
Lemma trimmed_of_unique (s t : pystr) : trimmed_of s t -> t = py_strip s.
Proof.
  intros (l & r & -> & Hl & Hr & Hhd & Hlast).
  unfold py_strip. rewrite py_lstrip_app_space by exact Hl.
  destruct t as [|c t'].
  - simpl. rewrite all_space_strip_nil by exact Hr. reflexivity.
  - assert (py_lstrip ((c :: t') ++ r) = (c :: t') ++ r) as ->.
    { simpl. rewrite (Hhd c t' eq_refl). reflexivity. }
    unfold py_rstrip. rewrite rev_app_distr.
    rewrite py_lstrip_app_space.
    + destruct (exists_last (l := c :: t')) as (t'' & z & Hz); [discriminate|].
      rewrite Hz, rev_app_distr. simpl.
      rewrite (Hlast t'' z Hz). simpl.
      rewrite rev_involutive. reflexivity.
    + apply List.Forall_forall. intros x Hx. apply in_rev in Hx.
      exact (proj1 (List.Forall_forall _ _) Hr x Hx).
Qed.

(** C7: for every sequence of segments the transcript is the segments'
    texts, each trimmed of its surrounding white space, in order and with
    a single space between neighbours; no segment gives the empty string,
    and the segments "hello", " world " give "hello world". *)
Theorem transcript_joins_trimmed_segments :
  (forall segments : list Segment,
      exists parts,
        Forall2 (fun segment part => trimmed_of (text segment) part)
          segments parts /\
        transcript_of segments = joined_by_single_spaces parts) /\
  transcript_of [] = [] /\
  transcript_of [ mkSegment (lit "hello"); mkSegment (lit " world ") ]
  = lit "hello world".
Proof.
  split; [| split; reflexivity].
  intros segments.
  exists (map (fun segment => py_strip (text segment)) segments). split.
  - induction segments as [|seg rest IH]; simpl; constructor.
    + apply py_strip_trimmed.
    + exact IH.
  - unfold transcript_of. apply py_join_single_space.
Qed.

Lemma py_join_blank (n : nat) :
  py_join [0x20] (repeat [] (S n)) = repeat 0x20 n.
Proof.
  induction n as [|n IH]; [reflexivity|].
  change (py_join [0x20] (repeat [] (S (S n))))
    with ([] ++ [0x20] ++ py_join [0x20] (repeat [] (S n))).
  rewrite IH. reflexivity.
Qed.

(** Two or more segments that trim to nothing leave the separators. *)
Lemma blank_transcript (segments : list Segment) :
  (2 <= length segments)%nat ->
  Forall (fun segment => py_strip (text segment) = []) segments ->
  transcript_of segments = repeat 0x20 (length segments - 1)%nat /\
  truthy (transcript_of segments) = true /\
  all_space (transcript_of segments).
Proof.
  intros Hlen Hblank.
  assert (map (fun segment => py_strip (text segment)) segments
          = repeat [] (length segments)) as Hmap.
  { clear Hlen. induction Hblank as [|seg rest Hseg _ IH]; simpl;
      [reflexivity|]. rewrite Hseg, IH. reflexivity. }
  assert (transcript_of segments = repeat 0x20 (length segments - 1)%nat)
    as Htext.
  { unfold transcript_of. rewrite Hmap.
    destruct (length segments) as [|n]; [lia|].
    change (lit " ") with [0x20]. rewrite py_join_blank.
    f_equal. lia. }
  split; [exact Htext|]. rewrite Htext.
  destruct (length segments) as [|[|n]]; try lia. simpl. split; [reflexivity|].
  constructor; [reflexivity|].
  apply List.Forall_forall. intros c Hc. apply repeat_spec in Hc. subst c.
  reflexivity.
Qed.

(** ** Traces: sessions and ordering *)

Lemma live_captures_snoc (tr : list event) (e : event) :
  live_captures (tr ++ [e]) = live_step (live_captures tr) e.
Proof. unfold live_captures. rewrite fold_left_app. reflexivity. Qed.

Lemma loader_event_neutral (e : event) :
  loader_event e = true -> neutral e = true.
Proof. destruct e; simpl; intros; try discriminate; reflexivity. Qed.

Lemma live_step_neutral (live : list nat) (e : event) :
  neutral e = true -> live_step live e = live.
Proof.
  destruct e; simpl; intros H; try discriminate; try reflexivity.
  apply negb_true_iff in H. rewrite H. reflexivity.
Qed.

Lemma live_captures_app_neutral (tr l : list event) :
  Forall (fun e => neutral e = true) l ->
  live_captures (tr ++ l) = live_captures tr.
Proof.
  intros Hl. unfold live_captures. rewrite fold_left_app.
  generalize (fold_left live_step tr []).
  induction Hl as [|e l He _ IH]; intros live; simpl; [reflexivity|].
  rewrite live_step_neutral by exact He. apply IH.
Qed.

Lemma at_most_one_snoc (tr : list event) (e : event) :
  at_most_one_session tr ->
  (length (live_captures (tr ++ [e])) <= 1)%nat ->
  at_most_one_session (tr ++ [e]).
Proof.
  unfold at_most_one_session. intros Htr He pre [k Hk].
  induction k as [|x k _] using rev_ind.
  - rewrite app_nil_r in Hk. subst pre. exact He.
  - rewrite app_assoc in Hk. apply app_inj_tail in Hk as [Hk _].
    apply Htr. exists k. exact Hk.
Qed.

Lemma at_most_one_app_neutral (tr l : list event) :
  at_most_one_session tr ->
  Forall (fun e => neutral e = true) l ->
  at_most_one_session (tr ++ l).
Proof.
  intros Htr. induction l as [|x l IH] using rev_ind; intros Hl.
  - rewrite app_nil_r. exact Htr.
  - apply Forall_app in Hl as [Hl Hx]. rewrite app_assoc.
    apply at_most_one_snoc; [apply IH; exact Hl|].
    rewrite <- app_assoc, live_captures_app_neutral
      by (apply Forall_app; split; assumption).
    apply (Htr tr). exists []. symmetry. apply app_nil_r.
Qed.

Lemma engine_guarded_snoc (tr : list event) (e : event) :
  engine_guarded tr ->
  (forall path, e = Transcribe path ->
                In LatchSet tr /\ In ModelAssigned tr) ->
  engine_guarded (tr ++ [e]).
Proof.
  intros Htr He path.
  assert (forall a, (forall p, e = Transcribe p -> In a tr) ->
                    preceded_by a (Transcribe path) tr ->
                    preceded_by a (Transcribe path) (tr ++ [e])) as Hkey.
  { unfold preceded_by. intros a Ha Hpre pre post Heq.
    induction post as [|x post _] using rev_ind.
    - apply app_inj_tail in Heq as [-> ->]. apply (Ha path). reflexivity.
    - rewrite app_comm_cons, app_assoc in Heq.
      apply app_inj_tail in Heq as [Heq _].
      apply (Hpre pre post). exact Heq. }
  split; apply Hkey; try apply Htr; intros p Hp; apply (He p Hp).
Qed.

Lemma engine_guarded_app_neutral (tr l : list event) :
  engine_guarded tr ->
  Forall (fun e => neutral e = true) l ->
  engine_guarded (tr ++ l).
Proof.
  intros Htr. induction l as [|x l IH] using rev_ind; intros Hl.
  - rewrite app_nil_r. exact Htr.
  - apply Forall_app in Hl as [Hl Hx]. rewrite app_assoc.
    apply engine_guarded_snoc; [apply IH; exact Hl|].
    intros path ->. inversion Hx as [|? ? Hev _]. discriminate Hev.
Qed.

(** ** Invariants under neutral events *)

Lemma stable_Inv : stable Inv.
Proof.
  intros w w' evs [Hlive Hidle Hone Hwit Hguard] Hself Hlog Hn.
  constructor.
  - rewrite Hlog, live_captures_app_neutral, Hself by exact Hn. exact Hlive.
  - rewrite Hself. exact Hidle.
  - rewrite Hlog. apply at_most_one_app_neutral; assumption.
  - unfold loader_witnessed in *. rewrite Hself, Hlog.
    setoid_rewrite in_app_iff. tauto.
  - rewrite Hlog. apply engine_guarded_app_neutral; assumption.
Qed.

Lemma stable_Idle : stable Idle.
Proof.
  intros w w' evs [HI Hrp] Hself Hlog Hn. split.
  - exact (stable_Inv w w' evs HI Hself Hlog Hn).
  - rewrite Hself. exact Hrp.
Qed.

Lemma stable_Loaded : stable Loaded.
Proof.
  intros w w' evs [HI Hl] Hself Hlog Hn. split.
  - exact (stable_Idle w w' evs HI Hself Hlog Hn).
  - rewrite Hself. exact Hl.
Qed.

Lemma quiet_preserves {A} (P : World -> Prop) (m : M A) :
  stable P -> quiet m -> preserves P m.
Proof.
  intros HP Hm w Hw. destruct (Hm w) as (Hself & evs & Hlog & Hn).
  exact (HP w _ evs Hw Hself Hlog Hn).
Qed.

(** ** A calculus of quiet computations *)

Lemma quiet_ret {A} (a : A) : quiet (ret a).
Proof.
  intros w. split; [reflexivity|]. exists []. simpl.
  split; [symmetry; apply app_nil_r | constructor].
Qed.

Lemma quiet_raise {A} (e : exn) : quiet (@raise A e).
Proof.
  intros w. split; [reflexivity|]. exists []. simpl.
  split; [symmetry; apply app_nil_r | constructor].
Qed.

Lemma quiet_get_self : quiet get_self.
Proof.
  intros w. split; [reflexivity|]. exists []. simpl.
  split; [symmetry; apply app_nil_r | constructor].
Qed.

Lemma quiet_perform (e : event) : neutral e = true -> quiet (perform e).
Proof.
  intros He w. split; [reflexivity|]. exists [e]. simpl.
  split; [reflexivity | repeat constructor; exact He].
Qed.

Lemma quiet_seq (w w1 w2 : World) :
  (self w1 = self w /\
   exists evs, log w1 = log w ++ evs /\ Forall (fun e => neutral e = true) evs) ->
  (self w2 = self w1 /\
   exists evs, log w2 = log w1 ++ evs /\ Forall (fun e => neutral e = true) evs) ->
  self w2 = self w /\
  exists evs, log w2 = log w ++ evs /\ Forall (fun e => neutral e = true) evs.
Proof.
  intros (Hs1 & evs1 & Hl1 & Hn1) (Hs2 & evs2 & Hl2 & Hn2).
  split; [congruence|]. exists (evs1 ++ evs2). split.
  - rewrite Hl2, Hl1. symmetry. apply app_assoc.
  - apply Forall_app. split; assumption.
Qed.

Lemma quiet_bind {A B} (m : M A) (k : A -> M B) :
  quiet m -> (forall a, quiet (k a)) -> quiet (bind m k).
Proof.
  intros Hm Hk w. unfold bind. specialize (Hm w).
  destruct (m w) as [[a|e|] w1]; simpl in *; try exact Hm.
  apply (quiet_seq w w1); [exact Hm | apply Hk].
Qed.

Lemma quiet_try_except {A} (body : M A) (handler : exn -> M A) :
  quiet body -> (forall e, quiet (handler e)) -> quiet (try_except body handler).
Proof.
  intros Hm Hk w. unfold try_except. specialize (Hm w).
  destruct (body w) as [[a|e|] w1]; simpl in *; try exact Hm.
  apply (quiet_seq w w1); [exact Hm | apply Hk].
Qed.

Lemma quiet_try_finally {A} (body : M A) (final : M unit) :
  quiet body -> quiet final -> quiet (try_finally body final).
Proof.
  intros Hm Hk w. unfold try_finally. specialize (Hm w). specialize (Hk (snd (body w))).
  destruct (body w) as [[a|e|] w1]; simpl in *; try exact Hm;
    destruct (final w1) as [[[]|e'|] w2]; simpl in *;
    apply (quiet_seq w w1); assumption.
Qed.

Section Controller.
Context (g : Globals) (env : Env).

Lemma is_arecord_arecord (f : pystr) : is_arecord (arecord_argv f) = true.
Proof. vm_compute. reflexivity. Qed.

Lemma is_arecord_clipboard : is_arecord (clipboard_argv g) = false.
Proof.
  unfold clipboard_argv. destruct (SESSION_TYPE g); vm_compute; reflexivity.
Qed.

Lemma quiet_print (line : pystr) : quiet (print line).
Proof. apply quiet_perform. reflexivity. Qed.

Lemma quiet_subprocess_run (argv : list pystr) : quiet (subprocess_run env argv).
Proof.
  intros w. unfold subprocess_run. destruct (which env (hd [] argv)); simpl.
  - split; [reflexivity|]. exists [Run argv (returncode env argv)].
    split; [reflexivity | repeat constructor].
  - split; [reflexivity|]. exists []. split; [symmetry; apply app_nil_r | constructor].
Qed.

Lemma quiet_Popen (argv : list pystr) :
  is_arecord argv = false -> quiet (subprocess_Popen env argv).
Proof.
  intros Ha w. unfold subprocess_Popen. destruct (which env (hd [] argv)); simpl.
  - split; [reflexivity|]. exists [Popen (next_pid w) argv].
    split; [reflexivity | repeat constructor]. simpl. rewrite Ha. reflexivity.
  - split; [reflexivity|]. exists []. split; [symmetry; apply app_nil_r | constructor].
Qed.

Lemma quiet_notify (title message icon : pystr) (timeout : N) :
  quiet (notify g env title message icon timeout).
Proof.
  unfold notify. apply quiet_bind; [apply quiet_perform; reflexivity|].
  intros _. destruct (negb (NOTIFICATIONS g)); [apply quiet_ret|].
  apply quiet_bind; [apply quiet_subprocess_run | intros; apply quiet_ret].
Qed.

Lemma quiet_copy_to_clipboard (text : pystr) : quiet (copy_to_clipboard g env text).
Proof.
  unfold copy_to_clipboard.
  apply quiet_bind; [apply quiet_Popen, is_arecord_clipboard|].
  intros p. apply quiet_perform. reflexivity.
Qed.

Lemma quiet_type_text (text : pystr) : quiet (type_text g env text).
Proof.
  unfold type_text. destruct (AUTO_TYPE g); [|apply quiet_ret].
  apply quiet_bind; [apply quiet_subprocess_run | intros; apply quiet_ret].
Qed.

Lemma quiet_temp_file_name : quiet temp_file_name.
Proof.
  unfold temp_file_name. apply quiet_bind; [apply quiet_get_self|].
  intros d. destruct (temp_file d); [apply quiet_ret | apply quiet_raise].
Qed.

Lemma quiet_on_exception (e : exn) : quiet (on_exception g env e).
Proof.
  unfold on_exception.
  apply quiet_bind; [apply quiet_print | intros; apply quiet_notify].
Qed.

Lemma quiet_cleanup : quiet cleanup.
Proof.
  unfold cleanup. apply quiet_bind; [apply quiet_get_self|].
  intros d. destruct (temp_file d) as [name|]; [|apply quiet_ret].
  apply quiet_bind.
  - intros w. split; [reflexivity|]. exists []. simpl.
    split; [symmetry; apply app_nil_r | constructor].
  - intros present. destruct present; [|apply quiet_ret].
    intros w. split; [reflexivity|]. exists [Unlink name]. simpl.
    split; [reflexivity | repeat constructor].
Qed.

(** ** What keeps the invariants *)

Lemma preserves_bind {A B} (P : World -> Prop) (m : M A) (k : A -> M B) :
  preserves P m -> (forall a, preserves P (k a)) -> preserves P (bind m k).
Proof.
  intros Hm Hk w Hw. unfold bind. specialize (Hm w Hw).
  destruct (m w) as [[a|e|] w1]; simpl in *; try exact Hm.
  apply Hk. exact Hm.
Qed.

Lemma preserves_try_except {A} (P : World -> Prop) (body : M A)
  (handler : exn -> M A) :
  preserves P body -> (forall e, preserves P (handler e)) ->
  preserves P (try_except body handler).
Proof.
  intros Hm Hk w Hw. unfold try_except. specialize (Hm w Hw).
  destruct (body w) as [[a|e|] w1]; simpl in *; try exact Hm.
  apply Hk. exact Hm.
Qed.

Lemma preserves_try_finally {A} (P : World -> Prop) (body : M A)
  (final : M unit) :
  preserves P body -> preserves P final -> preserves P (try_finally body final).
Proof.
  intros Hm Hk w Hw. unfold try_finally. specialize (Hm w Hw).
  specialize (Hk (snd (body w)) Hm).
  destruct (body w) as [[a|e|] w1]; simpl in *; try exact Hm;
    destruct (final w1) as [[[]|e'|] w2]; simpl in *; exact Hk.
Qed.

Lemma Loaded_model_transcribe (path : pystr) :
  preserves Loaded (model_transcribe env path).
Proof.
  intros w [[HI Hrp] Hl]. unfold model_transcribe, bind, get_self, raise, perform.
  destruct (model (self w)) as [m|] eqn:Hm; simpl;
    [|exact (conj (conj HI Hrp) Hl)].
  destruct HI as [Hlive Hidle Hone Hwit Hguard].
  assert (In LatchSet (log w) /\ In ModelAssigned (log w)) as Hin.
  { destruct Hwit as [H1 H2]. split; [apply H1; exact Hl|].
    apply H2. rewrite Hm. discriminate. }
  split; [split; [constructor|]|]; simpl; try assumption.
  - rewrite live_captures_snoc. exact Hlive.
  - apply at_most_one_snoc; [exact Hone|].
    rewrite live_captures_snoc. simpl. apply (Hone (log w)).
    exists []. symmetry. apply app_nil_r.
  - unfold loader_witnessed in *. simpl. setoid_rewrite in_app_iff. tauto.
  - apply engine_guarded_snoc; [exact Hguard|]. intros _ _. exact Hin.
Qed.

Lemma Loaded_transcribe_and_deliver :
  preserves Loaded (transcribe_and_deliver g env).
Proof.
  unfold transcribe_and_deliver.
  apply preserves_bind;
    [apply quiet_preserves; [apply stable_Loaded | apply quiet_temp_file_name]|].
  intros path. apply preserves_bind; [apply Loaded_model_transcribe|].
  intros segments. apply quiet_preserves; [apply stable_Loaded|].
  destruct (truthy (transcript_of segments)).
  - apply quiet_bind; [apply quiet_copy_to_clipboard|]. intros _.
    apply quiet_bind; [apply quiet_type_text|]. intros _.
    apply quiet_bind; [apply quiet_print | intros; apply quiet_notify].
  - apply quiet_bind; [apply quiet_print | intros; apply quiet_notify].
Qed.

Lemma Loaded_transcribing :
  preserves Loaded
    (try_finally
       (try_except (transcribe_and_deliver g env) (on_exception g env))
       cleanup).
Proof.
  apply preserves_try_finally.
  - apply preserves_try_except; [apply Loaded_transcribe_and_deliver|].
    intros e. apply quiet_preserves; [apply stable_Loaded | apply quiet_on_exception].
  - apply quiet_preserves; [apply stable_Loaded | apply quiet_cleanup].
Qed.

(** ** The loader thread keeps the invariant *)

Lemma loader_step_spec (w : World) :
  same_session w (loader_step w) /\
  (loader_witnessed w -> loader_witnessed (loader_step w)) /\
  exists evs, log (loader_step w) = log w ++ evs /\
              Forall (fun e => loader_event e = true) evs.
Proof.
  unfold loader_step, same_session, loader_witnessed.
  destruct (loader w) as [|op rest] eqn:Hl.
  - repeat split; try tauto. exists [].
    split; [symmetry; apply app_nil_r | constructor].
  - destruct op; simpl; (split; [tauto|]);
      (split; [rewrite ?in_app_iff; simpl; intuition |]);
      eexists; (split; [reflexivity|]); repeat constructor.
Qed.

Lemma loader_step_Inv (w : World) : Inv w -> Inv (loader_step w).
Proof.
  intros [Hlive Hidle Hone Hwit Hguard].
  destruct (loader_step_spec w) as ((_ & Hrp & _) & Hw & evs & Hlog & Hev).
  assert (Forall (fun e => neutral e = true) evs) as Hn.
  { eapply List.Forall_impl; [|exact Hev]. apply loader_event_neutral. }
  constructor.
  - rewrite Hlog, live_captures_app_neutral, Hrp by exact Hn. exact Hlive.
  - destruct (loader_step_spec w) as ((Hrec & _) & _). rewrite Hrec, Hrp.
    exact Hidle.
  - rewrite Hlog. apply at_most_one_app_neutral; assumption.
  - apply Hw. exact Hwit.
  - rewrite Hlog. apply engine_guarded_app_neutral; assumption.
Qed.

Lemma loader_step_Idle (w : World) : Idle w -> Idle (loader_step w).
Proof.
  intros [HI Hrp]. split; [apply loader_step_Inv; exact HI|].
  destruct (loader_step_spec w) as ((_ & Hrp' & _) & _). congruence.
Qed.

Lemma await_latch_Idle (n : nat) (w : World) :
  Idle w ->
  Idle (snd (await_latch n w)) /\
  (fst (await_latch n w) = Ok tt -> Loaded (snd (await_latch n w))) /\
  (forall e, fst (await_latch n w) <> Raise e).
Proof.
  revert w. induction n as [|n IH]; intros w Hw; simpl;
    destruct (model_loaded (self w)) eqn:Hl; simpl.
  - assert (Idle (emit LatchWaited w)) as Hw'.
    { apply (stable_Idle w _ [LatchWaited] Hw); repeat constructor. }
    repeat split; try apply Hw'; try exact Hl. discriminate.
  - repeat split; try apply Hw; discriminate.
  - assert (Idle (emit LatchWaited w)) as Hw'.
    { apply (stable_Idle w _ [LatchWaited] Hw); repeat constructor. }
    repeat split; try apply Hw'; try exact Hl. discriminate.
  - apply IH. apply loader_step_Idle. exact Hw.
Qed.

(** ** The handlers keep the invariant *)

Lemma stop_recording_tail_Idle :
  preserves Idle
    (bind (print (lit "Transcribing..."))
       (fun _ =>
     bind (notify g env (lit "Transcribing...") (lit "Processing your speech")
             (lit "emblem-synchronizing") 30000)
       (fun _ =>
     bind model_loaded_wait
       (fun _ =>
     bind get_self
       (fun d =>
        if truthy_opt (model_error d) then
          bind (print (lit "Cannot transcribe: model failed to load"))
            (fun _ => notify g env (lit "Error") (lit "Model failed to load")
                        (lit "dialog-error") 3000)
        else
          try_finally
            (try_except (transcribe_and_deliver g env) (on_exception g env))
            cleanup))))).
Proof.
  apply preserves_bind;
    [apply quiet_preserves; [apply stable_Idle | apply quiet_print]|].
  intros _. apply preserves_bind;
    [apply quiet_preserves; [apply stable_Idle | apply quiet_notify]|].
  intros _ w Hw. unfold bind at 1. unfold model_loaded_wait.
  destruct (await_latch_Idle (length (loader w)) w Hw) as (Hidle & Hok & Hne).
  destruct (await_latch (length (loader w)) w) as [[[]|e|] w1]; simpl in *;
    try exact Hidle.
  specialize (Hok eq_refl).
  enough (Loaded
            (snd (bind get_self
               (fun d =>
                if truthy_opt (model_error d) then
                  bind (print (lit "Cannot transcribe: model failed to load"))
                    (fun _ => notify g env (lit "Error")
                                (lit "Model failed to load")
                                (lit "dialog-error") 3000)
                else
                  try_finally
                    (try_except (transcribe_and_deliver g env)
                       (on_exception g env))
                    cleanup) w1))) as [H _] by exact H.
  clear Hidle Hne. revert w1 Hok.
  change (preserves Loaded
            (bind get_self
               (fun d =>
                if truthy_opt (model_error d) then
                  bind (print (lit "Cannot transcribe: model failed to load"))
                    (fun _ => notify g env (lit "Error")
                                (lit "Model failed to load")
                                (lit "dialog-error") 3000)
                else
                  try_finally
                    (try_except (transcribe_and_deliver g env)
                       (on_exception g env))
                    cleanup))).
  apply preserves_bind;
    [apply quiet_preserves; [apply stable_Loaded | apply quiet_get_self]|].
  intros d. destruct (truthy_opt (model_error d)).
  - apply quiet_preserves; [apply stable_Loaded|].
    apply quiet_bind; [apply quiet_print | intros; apply quiet_notify].
  - apply Loaded_transcribing.
Qed.

Lemma filter_reaped (n : nat) :
  List.filter (fun p => negb (p =? n)%nat) [n] = [].
Proof. simpl. rewrite Nat.eqb_refl. reflexivity. Qed.

Lemma stop_capture_Idle (w : World) :
  Inv w ->
  Idle (snd (stop_capture (with_self (set_recording false (self w)) w))).
Proof.
  intros [Hlive Hidle Hone Hwit Hguard].
  unfold stop_capture, bind, get_self, perform, update, ret. simpl.
  destruct (record_process (self w)) as [p|] eqn:Hp; simpl.
  - assert (live_captures ((log w ++ [Terminate p]) ++ [Wait p]) = []) as Hl.
    { rewrite !live_captures_snoc, Hlive. simpl. rewrite Nat.eqb_refl.
      reflexivity. }
    split; [constructor|]; simpl; try reflexivity; try assumption.
    + apply at_most_one_snoc; [apply at_most_one_snoc; [exact Hone|]|].
      * rewrite live_captures_snoc, Hlive. simpl. lia.
      * rewrite Hl. simpl. lia.
    + unfold loader_witnessed in *. simpl. rewrite !in_app_iff. tauto.
    + repeat (apply engine_guarded_snoc; [| intros ? [=]]). exact Hguard.
  - split; [constructor|]; simpl; try assumption.
    + rewrite Hp. exact Hlive.
    + intros _. exact Hp.
Qed.

Lemma stop_recording_Inv : preserves Inv (stop_recording g env).
Proof.
  intros w HI. unfold stop_recording. unfold bind at 1. unfold get_self at 1.
  destruct (negb (recording (self w))); [exact HI|].
  unfold bind at 1. unfold update at 1.
  unfold bind at 1.
  pose proof (stop_capture_Idle w HI) as Hidle.
  destruct (stop_capture (with_self (set_recording false (self w)) w))
    as [[[]|e|] w1]; simpl in Hidle; try apply Hidle.
  apply (stop_recording_tail_Idle w1 Hidle).
Qed.

Lemma start_recording_Inv : preserves Inv (start_recording g env).
Proof.
  intros w HI. unfold start_recording. unfold bind at 1. unfold get_self at 1.
  destruct (recording (self w) || truthy_opt (model_error (self w))) eqn:Hguard;
    [exact HI|].
  apply orb_false_iff in Hguard as [Hrec _].
  destruct HI as [Hlive Hidle Hone Hwit Hguard].
  specialize (Hidle Hrec). rewrite Hidle in Hlive. simpl in Hlive.
  unfold bind at 1. unfold update at 1.
  unfold bind at 1. unfold NamedTemporaryFile.
  unfold bind at 1. unfold update at 1.
  unfold bind at 1. unfold subprocess_Popen.
  cbn [self fs next_pid next_tmp loader log with_self].
  destruct (which env (hd [] (arecord_argv (temp_name (next_tmp w) (lit ".wav")))));
    cbn [snd].
  - unfold bind at 1. unfold update at 1.
    apply (quiet_preserves Inv); [apply stable_Inv | |].
    { apply quiet_bind; [apply quiet_print | intros; apply quiet_notify]. }
    constructor; cbn [self fs next_pid next_tmp loader log with_self
                      recording record_process model model_loaded
                      set_recording set_record_process set_temp_file].
    + rewrite !live_captures_snoc, Hlive. unfold live_step.
      rewrite is_arecord_arecord. reflexivity.
    + discriminate.
    + apply at_most_one_snoc; [apply at_most_one_snoc; [exact Hone|]|];
        rewrite !live_captures_snoc, Hlive; unfold live_step;
        rewrite ?is_arecord_arecord; simpl; lia.
    + unfold loader_witnessed in *. simpl. rewrite !in_app_iff. tauto.
    + repeat (apply engine_guarded_snoc; [| intros ? [=]]). exact Hguard.
  - constructor; cbn [self fs next_pid next_tmp loader log with_self
                      recording record_process model model_loaded
                      set_recording set_record_process set_temp_file].
    + rewrite !live_captures_snoc, Hlive, Hidle. reflexivity.
    + discriminate.
    + apply at_most_one_snoc; [exact Hone|].
      rewrite !live_captures_snoc, Hlive. simpl. lia.
    + unfold loader_witnessed in *. simpl. rewrite !in_app_iff. tauto.
    + repeat (apply engine_guarded_snoc; [| intros ? [=]]). exact Hguard.
Qed.

Lemma on_event_Inv (event : InputEvent) : preserves Inv (on_event g env event).
Proof.
  unfold on_event.
  destruct ((ev_type event =? EV_KEY)%Z && (ev_code event =? HOTKEY g)%Z);
    [|intros w Hw; exact Hw].
  destruct (ev_value event =? 1)%Z; [apply start_recording_Inv|].
  destruct (ev_value event =? 0)%Z; [apply stop_recording_Inv|].
  intros w Hw. exact Hw.
Qed.

Lemma for_events_Inv (events : list InputEvent) :
  preserves Inv (for_events g env events).
Proof.
  induction events as [|event rest IH]; simpl.
  - intros w Hw. exact Hw.
  - apply preserves_bind; [apply on_event_Inv | intros _; exact IH].
Qed.

Lemma read_device_Inv (events : list InputEvent) :
  preserves Inv (read_device g env events).
Proof.
  intros w Hw. unfold read_device.
  pose proof (for_events_Inv events w Hw) as H.
  destruct (for_events g env events w) as [[[]|e|] w1]; simpl in *;
    try exact H.
  destruct (is_OSError e); exact H.
Qed.

Lemma step_Inv (sys : System) (s : sched) :
  Inv (world sys) -> Inv (world (step g env sys s)).
Proof.
  intros H. unfold step. destruct (main sys); try exact H.
  destruct s as [|events]; simpl.
  - apply loader_step_Inv. exact H.
  - pose proof (read_device_Inv events (world sys) H) as H'.
    destruct (read_device g env events (world sys)) as [[[]|e|] w1];
      simpl in *; exact H'.
Qed.

Lemma boot_Inv : Inv (world (boot g env)).
Proof.
  constructor; simpl.
  - reflexivity.
  - reflexivity.
  - intros pre [k Hk]. destruct pre as [|e pre]; [simpl; lia|].
    injection Hk as <- Hk. destruct pre; [simpl; lia | discriminate].
  - split; [discriminate | intros H; contradiction H; reflexivity].
  - intros path. split; intros pre post Heq;
      destruct pre as [|e pre]; try discriminate;
      injection Heq as _ Heq; destruct pre; discriminate.
Qed.

Lemma run_Inv (schedule : list sched) : Inv (world (run g env schedule)).
Proof.
  unfold run. generalize boot_Inv. generalize (boot g env).
  induction schedule as [|s rest IH]; intros sys H; simpl; [exact H|].
  apply IH. apply step_Inv. exact H.
Qed.

(** ** Edges that change nothing *)

Lemma start_recording_while_recording (w : World) :
  recording (self w) = true -> start_recording g env w = (Ok tt, w).
Proof.
  intros H. unfold start_recording, bind, get_self. rewrite H. reflexivity.
Qed.

(** The guard of line 152 for a recorded error with a message. *)
Lemma start_recording_refused_after_load_error (w : World) :
  truthy_opt (model_error (self w)) = true ->
  start_recording g env w = (Ok tt, w).
Proof.
  intros H. unfold start_recording, bind, get_self. rewrite H, orb_true_r.
  reflexivity.
Qed.

(** C6: a Down edge while recording returns at once and leaves the object,
    the files, the processes and the log as they were; so does an Up edge
    while idle. *)
Theorem edges_out_of_turn_are_noops (w : World) :
  (recording (self w) = true -> start_recording g env w = (Ok tt, w)) /\
  (recording (self w) = false -> stop_recording g env w = (Ok tt, w)).
Proof.
  split.
  - apply start_recording_while_recording.
  - intros H. unfold stop_recording, bind, get_self. rewrite H. reflexivity.
Qed.

(** C2: whatever the devices deliver and however the loader thread is
    interleaved, at every point of the run at most one capture process
    is alive; the one alive is the one the object holds, and it holds one
    only while the recording flag is set; a Down edge in that state
    creates nothing. *)
Theorem at_most_one_recording_session (schedule : list sched) :
  at_most_one_session (log (world (run g env schedule))) /\
  live_captures (log (world (run g env schedule)))
  = handle_list (record_process (self (world (run g env schedule)))) /\
  (record_process (self (world (run g env schedule))) <> None ->
   recording (self (world (run g env schedule))) = true) /\
  (recording (self (world (run g env schedule))) = true ->
   start_recording g env (world (run g env schedule))
   = (Ok tt, world (run g env schedule))).
Proof.
  destruct (run_Inv schedule) as [Hlive Hidle Hone _ _].
  repeat split; try assumption.
  - intros Hp. destruct (recording (self (world (run g env schedule))));
      [reflexivity | contradiction Hp; apply Hidle; reflexivity].
  - apply start_recording_while_recording.
Qed.

(** ** The notifier *)


(** ** The readiness handshake *)

Lemma await_latch_spec (n : nat) (w : World) (r : result unit) (w1 : World) :
  await_latch n w = (r, w1) ->
  exists lacts,
    Forall (fun e => loader_event e = true) lacts /\
    same_session w w1 /\
    ((r = Ok tt /\ model_loaded (self w1) = true /\
      log w1 = (log w ++ lacts) ++ [LatchWaited]) \/
     (r = Blocked /\ model_loaded (self w1) = false /\
      log w1 = log w ++ lacts)).
Proof.
  revert w. induction n as [|n IH]; intros w; simpl;
    destruct (model_loaded (self w)) eqn:Hl.
  - intros [= <- <-]. exists []. split; [constructor|].
    split; [unfold same_session; tauto|]. left. rewrite app_nil_r. auto.
  - intros [= <- <-]. exists []. split; [constructor|].
    split; [unfold same_session; tauto|]. right. rewrite app_nil_r. auto.
  - intros [= <- <-]. exists []. split; [constructor|].
    split; [unfold same_session; tauto|]. left. rewrite app_nil_r. auto.
  - intros H. apply IH in H. destruct H as (lacts & Hall & Hsame & Hlog).
    destruct (loader_step_spec w) as (Hs & _ & evs & Hev & Hevall).
    exists (evs ++ lacts). split; [apply Forall_app; auto|].
    split. { unfold same_session in *. intuition congruence. }
    destruct Hlog as [(-> & Hl1 & Hlog) | (-> & Hl1 & Hlog)]; [left|right];
      repeat split; auto; rewrite Hlog, Hev, <- !app_assoc; reflexivity.
Qed.

(** [wait] returns only once the latch is set, never raises, and sleeps
    for ever only if the loader ends without setting the latch. *)
Lemma model_loaded_wait_spec (w : World) :
  match model_loaded_wait w with
  | (Ok _, w1) => model_loaded (self w1) = true
  | (Raise _, _) => False
  | (Blocked, w1) => model_loaded (self w1) = false
  end.
Proof.
  unfold model_loaded_wait.
  destruct (await_latch (length (loader w)) w) as [r w1] eqn:H.
  apply await_latch_spec in H.
  destruct H as (lacts & _ & _ & [(-> & Hl & _) | (-> & Hl & _)]); exact Hl.
Qed.

Lemma loader_event_not_transcribe (lacts : list event) (path : pystr) :
  Forall (fun e => loader_event e = true) lacts ->
  ~ In (Transcribe path) lacts.
Proof.
  intros Hall Hin. apply (proj1 (List.Forall_forall _ _) Hall) in Hin.
  discriminate Hin.
Qed.






(** ** Walking through stop_recording *)

#[local] Opaque lit py_str_int temp_name.

Ltac innermost t k :=
  lazymatch t with
  | context [match ?x with _ => _ end] => innermost x k
  | _ => k t
  end.

Ltac case_wait w :=
  let r := fresh "r" in
  let w1 := fresh "w" in
  let E := fresh "Hwait" in
  let lacts := fresh "lacts" in
  destruct (model_loaded_wait w) as [r w1] eqn:E;
  unfold model_loaded_wait in E;
  apply await_latch_spec in E;
  destruct E as (lacts & ? & ? & [(-> & ? & ?) | (-> & ? & ?)]).


(** The same in a hypothesis. *)
Ltac exec_in H :=
  repeat (
    simpl in H;
    lazymatch type of H with
    | context [model_loaded_wait ?w] => case_wait w
    | context [match ?x with _ => _ end] =>
        innermost x ltac:(fun t => destruct t eqn:?)
    end).


Ltac use_session :=
  repeat match goal with
    | H : same_session _ _ |- _ =>
        unfold same_session in H; simpl in H;
        destruct H as (? & ? & ? & ? & ? & ?)
    | H : negb _ = true |- _ => apply negb_true_iff in H
    | H : negb _ = false |- _ => apply negb_false_iff in H
    | H : log _ = _ |- _ => progress simpl in H
    end.



(** ** Cycles that reach the engine *)

Lemma loader_event_not_dispatch (lacts : list event) :
  Forall (fun e => loader_event e = true) lacts ->
  Forall (fun e => is_dispatch e = false) lacts.
Proof.
  apply List.Forall_impl. intros e. destruct e; simpl; congruence.
Qed.

Lemma notify_send_not_dispatch (title message icon : pystr) (timeout : N)
  (rc : Z) :
  is_dispatch (Run (notify_send_argv title message icon timeout) rc) = false.
Proof. vm_compute. reflexivity. Qed.

Ltac unfold_controller_in H :=
  unfold stop_recording, start_recording, stop_capture, try_finally,
    try_except, transcribe_and_deliver, on_exception, cleanup,
    temp_file_name, model_transcribe, copy_to_clipboard, type_text,
    NamedTemporaryFile, subprocess_Popen, os_path_exists, os_unlink, notify,
    subprocess_run, print, perform, update, raise, bind, get_self, ret in H.

(** The events a cycle added to the log, from [log w' = log w ++ new]. *)
Ltac new_events :=
  match goal with
  | H : _ = log ?w ++ ?new |- _ =>
      simpl in H;
      repeat match goal with
        | E : log ?w0 = _ |- _ =>
            lazymatch E with
            | H => fail
            | _ => match type of H with
                   | context [log w0] => rewrite E in H
                   end
            end
        end;
      rewrite <- ?app_assoc in H; simpl in H;
      apply app_inv_head in H; subst new
  end.

(** Which event of the cycle the engine call [Hin] is. *)
Ltac find_transcribe Hin :=
  simpl in Hin; rewrite ?in_app_iff in Hin; simpl in Hin;
  decompose [or] Hin; clear Hin;
  try discriminate; try contradiction;
  try (exfalso; eapply loader_event_not_transcribe; eassumption).

Ltac in_tac :=
  simpl;
  repeat first
    [ left; reflexivity
    | right
    | apply in_or_app; right; simpl ].

Ltac not_dispatch_tac :=
  repeat first
    [ apply List.Forall_nil
    | apply List.Forall_cons;
      [first [reflexivity | apply notify_send_not_dispatch]|]
    | apply Forall_app; split;
      [apply loader_event_not_dispatch; assumption|] ].

(** C8: in every cycle in which the engine ran and the transcript is the
    empty string, nothing is sent to the clipboard and nothing is typed,
    and the notifier is called with "No speech detected" (which runs
    notify-send when notifications are enabled). *)
Theorem empty_transcript_is_not_dispatched
  (w : World) (new : list event) (path : pystr) (segments : list Segment) :
  recording (self w) = true ->
  log (snd (stop_recording g env w)) = log w ++ new ->
  In (Transcribe path) new ->
  engine_transcribe env path = Ok segments ->
  transcript_of segments = [] ->
  Forall (fun e => is_dispatch e = false) new /\
  In (NotifyCall (lit "No speech detected") (lit "Try speaking louder")
        (lit "dialog-warning") 2000) new /\
  (NOTIFICATIONS g = true ->
   In (Run (notify_send_argv (lit "No speech detected")
              (lit "Try speaking louder") (lit "dialog-warning") 2000)
         (returncode env
            (notify_send_argv (lit "No speech detected")
               (lit "Try speaking louder") (lit "dialog-warning") 2000)))
      new).
Proof.
  intros Hrec Hlog Hin Heng Hempty.
  unfold stop_recording in Hlog. unfold bind at 1 in Hlog.
  unfold get_self at 1 in Hlog. rewrite Hrec in Hlog. cbn [negb] in Hlog.
  unfold_controller_in Hlog.
  exec_in Hlog; use_session.
  all: new_events.
  all: find_transcribe Hin.
  all: try congruence.
  all: match goal with
       | H : Transcribe _ = Transcribe _ |- _ => injection H as ->
       end.
  all: try congruence.
  all: match goal with
       | H1 : engine_transcribe env ?p = Ok ?a,
         H2 : engine_transcribe env ?p = Ok ?b |- _ =>
           assert (a = b) by congruence; subst a
       end.
  all: match goal with
       | H : truthy (transcript_of ?s) = _, E : transcript_of ?s = [] |- _ =>
           rewrite E in H; try discriminate H
       end.
  all: split;
    [ not_dispatch_tac
    | split; [in_tac | intros HN; try congruence; in_tac] ].
Qed.

(** C10: the test of line 207 is the truth value of the joined string.
    When the engine returns two or more segments that all trim to the
    empty string, the transcript is made of the separating spaces only;
    it is not empty, so the cycle sends it to the clipboard and, with
    auto_type on, types it. *)
Theorem blank_transcript_is_dispatched
  (w : World) (new : list event) (path : pystr) (segments : list Segment) :
  recording (self w) = true ->
  log (snd (stop_recording g env w)) = log w ++ new ->
  In (Transcribe path) new ->
  engine_transcribe env path = Ok segments ->
  (2 <= length segments)%nat ->
  Forall (fun segment => py_strip (text segment) = []) segments ->
  which env (hd [] (clipboard_argv g)) = true ->
  transcript_of segments = repeat 0x20 (length segments - 1)%nat /\
  truthy (transcript_of segments) = true /\
  all_space (transcript_of segments) /\
  (exists pid,
      In (Popen pid (clipboard_argv g)) new /\
      In (Communicate pid (transcript_of segments)) new) /\
  (AUTO_TYPE g = true ->
   which env (hd [] (typing_argv g (transcript_of segments))) = true ->
   In (Run (typing_argv g (transcript_of segments))
         (returncode env (typing_argv g (transcript_of segments)))) new).
Proof.
  intros Hrec Hlog Hin Heng Hlen Hblank Hclip.
  destruct (blank_transcript segments Hlen Hblank) as (Htext & Htruthy & Hspace).
  split; [exact Htext|]. split; [exact Htruthy|]. split; [exact Hspace|].
  clear Htext Hspace Hlen Hblank.
  unfold stop_recording in Hlog. unfold bind at 1 in Hlog.
  unfold get_self at 1 in Hlog. rewrite Hrec in Hlog. cbn [negb] in Hlog.
  unfold_controller_in Hlog.
  exec_in Hlog; use_session.
  all: new_events.
  all: find_transcribe Hin.
  all: try congruence.
  all: match goal with
       | H : Transcribe _ = Transcribe _ |- _ => injection H as ->
       end.
  all: try congruence.
  all: match goal with
       | H1 : engine_transcribe env ?p = Ok ?a,
         H2 : engine_transcribe env ?p = Ok ?b |- _ =>
           assert (a = b) by congruence; subst a
       end.
  all: try congruence.
  all: split;
    [ eexists; split; in_tac
    | intros HA HW; try congruence; in_tac ].
Qed.

(** ** The temporary file, past the model check *)

Lemma loader_event_not_waited (lacts : list event) :
  Forall (fun e => loader_event e = true) lacts -> ~ In LatchWaited lacts.
Proof.
  intros Hall Hin. apply (proj1 (List.Forall_forall _ _) Hall) in Hin.
  discriminate Hin.
Qed.

Lemma count_unlinks_app (name : pystr) (l1 l2 : list event) :
  count_unlinks name (l1 ++ l2)
  = (count_unlinks name l1 + count_unlinks name l2)%nat.
Proof.
  unfold count_unlinks. rewrite List.filter_app, length_app. reflexivity.
Qed.

Lemma count_unlinks_loader (name : pystr) (lacts : list event) :
  Forall (fun e => loader_event e = true) lacts ->
  count_unlinks name lacts = 0%nat.
Proof.
  induction 1 as [|e l He _ IH]; [reflexivity|].
  change (e :: l) with ([e] ++ l). rewrite count_unlinks_app, IH.
  destruct e; try discriminate He; reflexivity.
Qed.

Lemma count_unlinks_same (name : pystr) :
  count_unlinks name [Unlink name] = 1%nat.
Proof.
  unfold count_unlinks, pystr_eqb. simpl.
  rewrite bool_decide_eq_true_2 by reflexivity. reflexivity.
Qed.

Ltac count_tac :=
  repeat first
    [ rewrite count_unlinks_same
    | rewrite count_unlinks_loader by assumption
    | match goal with
      | |- context [count_unlinks ?n (?l1 ++ ?l2)] =>
          rewrite (count_unlinks_app n l1 l2)
      | |- context [count_unlinks ?n (?e :: ?l)] =>
          lazymatch l with
          | [] => fail
          | _ => change (e :: l) with ([e] ++ l)
          end
      end
    | progress cbn [count_unlinks List.filter length Nat.add] ].

(** X27: once an Up edge has got past the model check (the wait returned,
    no load error is recorded, the engine did not hang), the session's
    file is unlinked exactly once and is gone when the handler ends: with
    text, without text, and when the transcription or a later step
    raises. *)
Lemma temp_file_unlinked_once_past_model_check
  (w : World) (new : list event) (name : pystr) :
  recording (self w) = true ->
  temp_file (self w) = Some name ->
  name ∈ fs w ->
  log (snd (stop_recording g env w)) = log w ++ new ->
  In LatchWaited new ->
  truthy_opt (model_error (self (snd (stop_recording g env w)))) = false ->
  fst (stop_recording g env w) <> Blocked ->
  count_unlinks name new = 1%nat /\
  name ∉ fs (snd (stop_recording g env w)).
Proof.
  intros Hrec Htemp Hfile Hlog Hin Herr Hres.
  destruct (stop_recording g env w) as [res w'] eqn:Hrun.
  cbn [fst snd] in *.
  unfold stop_recording in Hrun. unfold bind at 1 in Hrun.
  unfold get_self at 1 in Hrun. rewrite Hrec in Hrun. cbn [negb] in Hrun.
  unfold_controller_in Hrun.
  exec_in Hrun; use_session.
  all: injection Hrun as <- <-.
  all: try (contradiction Hres; reflexivity).
  all: new_events.
  all: simpl in Hin; rewrite ?in_app_iff in Hin; simpl in Hin;
    decompose [or] Hin; clear Hin; try discriminate; try contradiction;
    try (exfalso; eapply loader_event_not_waited; eassumption).
  all: simpl in Herr; try congruence.
  all: match goal with
       | H1 : temp_file (self ?w0) = Some ?l0,
         H2 : temp_file (self ?w0) = temp_file (self ?w1),
         H3 : temp_file (self ?w1) = Some ?n |- _ =>
           assert (l0 = n) by congruence; subst l0
       end.
  all: try match goal with
       | H : bool_decide (_ ∈ fs ?w0) = false, E : fs ?w0 = fs _ |- _ =>
           exfalso; apply bool_decide_eq_false in H; apply H;
           rewrite E; assumption
       end.
  all: split;
    [ count_tac; reflexivity
    | simpl; intros Hx; apply elem_of_difference in Hx as [_ Hx];
      apply Hx, elem_of_singleton; reflexivity ].
Qed.

End Controller.

#[local] Transparent lit py_str_int temp_name.

(** ** The temporary file on the load-failure path *)

(** C1, at the input where it fails: the key goes down and up while the
    model is still loading, and the load then fails with "boom".  The
    handler returns at line 195, before the [try ... finally]: the cycle
    is over, the recording flag is down, and the session's file is still
    on disk, never unlinked. *)
Theorem temp_file_leaks_when_model_fails_to_load :
  main (sys_released_while_loading (env_load_fails (lit "boom"))) = Live /\
  recording (self (world (sys_released_while_loading
                            (env_load_fails (lit "boom"))))) = false /\
  model_error (self (world (sys_released_while_loading
                              (env_load_fails (lit "boom")))))
  = Some (lit "boom") /\
  temp_file (self (world (sys_released_while_loading
                            (env_load_fails (lit "boom")))))
  = Some (temp_name 0 (lit ".wav")) /\
  In (TempFileCreated (temp_name 0 (lit ".wav")))
    (log (world (sys_released_while_loading (env_load_fails (lit "boom"))))) /\
  count_unlinks (temp_name 0 (lit ".wav"))
    (log (world (sys_released_while_loading (env_load_fails (lit "boom")))))
  = 0%nat /\
  bool_decide
    (temp_name 0 (lit ".wav")
       ∈ fs (world (sys_released_while_loading
                      (env_load_fails (lit "boom"))))) = true.
Proof.
  vm_compute. repeat split. repeat (first [left; reflexivity | right]).
Qed.

(** ** The guard of start_recording *)

(** C5, at the input where it fails: the model load raised an exception
    whose message is the empty string.  The error is recorded
    ([model_error] is the empty string, the latch is set, there is no
    model), yet the test of line 152 takes the empty string for "no
    error": a Down edge starts a recording. *)
Theorem recording_starts_after_load_error_without_message :
  model_loaded (self (w_idle (env_load_fails []))) = true /\
  model (self (w_idle (env_load_fails []))) = None /\
  model_error (self (w_idle (env_load_fails []))) = Some [] /\
  recording (self (w_idle (env_load_fails []))) = false /\
  recording (self (w_recording (env_load_fails []))) = true /\
  record_process (self (w_recording (env_load_fails []))) = Some 0%nat /\
  In (Popen 0 (arecord_argv (temp_name 0 (lit ".wav"))))
    (log (w_recording (env_load_fails []))) /\
  bool_decide
    (temp_name 0 (lit ".wav") ∈ fs (w_recording (env_load_fails []))) = true.
Proof.
  vm_compute. repeat split. repeat (first [left; reflexivity | right]).
Qed.

(** ** load_config *)



(** Interpolation copies a value without percent sign. *)
Lemma interpolate_plain (levels : nat) (opt section : pystr)
  (d : gmap pystr pystr * gmap pystr pystr) (value accum : pystr) :
  plain value = true ->
  interpolate_some (S levels) opt section d value accum
  = Return (accum ++ value).
Proof.
  unfold plain. intros H. apply negb_true_iff in H.
  cbn [interpolate_some].
  generalize (le_n (length value)).
  generalize (length value) at 2 3. intros n. revert accum n.
  induction value as [|c value IH]; intros accum n Hn.
  - destruct n; rewrite app_nil_r; reflexivity.
  - destruct n as [|n]; [simpl in Hn; lia|].
    cbn [existsb] in H. apply orb_false_iff in H as [Hc Hrest].
    rewrite N.eqb_sym in Hc. rewrite Hc.
    rewrite IH; [| exact Hrest | simpl in Hn; lia].
    rewrite <- app_assoc. reflexivity.
Qed.





(** ** Witnesses and counterexamples *)



Lemma edges_out_of_turn_are_noops_witness :
  start_recording g_x11 env_ready (w_recording env_ready)
  = (Ok tt, w_recording env_ready) /\
  stop_recording g_x11 env_ready (w_idle env_ready)
  = (Ok tt, w_idle env_ready).
Proof.
  split.
  - apply (edges_out_of_turn_are_noops g_x11 env_ready). vm_compute.
    reflexivity.
  - apply (edges_out_of_turn_are_noops g_x11 env_ready). vm_compute.
    reflexivity.
Defined.

Lemma at_most_one_recording_session_witness :
  recording (self (world (run g_x11 env_ready
                            [LoaderStep; DeviceRead [key_down g_x11]])))
  = true /\
  start_recording g_x11 env_ready
    (world (run g_x11 env_ready [LoaderStep; DeviceRead [key_down g_x11]]))
  = (Ok tt,
     world (run g_x11 env_ready [LoaderStep; DeviceRead [key_down g_x11]])).
Proof.
  destruct (at_most_one_recording_session g_x11 env_ready
              [LoaderStep; DeviceRead [key_down g_x11]])
    as (_ & _ & Hflag & Hnoop).
  split.
  - apply Hflag. vm_compute. discriminate.
  - apply Hnoop. vm_compute. reflexivity.
Defined.


Lemma empty_transcript_is_not_dispatched_witness :
  Forall (fun e => is_dispatch e = false)
    (cycle_events g_x11 (env_hears []) (w_recording (env_hears []))) /\
  In (NotifyCall (lit "No speech detected") (lit "Try speaking louder")
        (lit "dialog-warning") 2000)
    (cycle_events g_x11 (env_hears []) (w_recording (env_hears []))) /\
  (NOTIFICATIONS g_x11 = true ->
   In (Run (notify_send_argv (lit "No speech detected")
              (lit "Try speaking louder") (lit "dialog-warning") 2000)
         (returncode (env_hears [])
            (notify_send_argv (lit "No speech detected")
               (lit "Try speaking louder") (lit "dialog-warning") 2000)))
      (cycle_events g_x11 (env_hears []) (w_recording (env_hears [])))).
Proof.
  apply (empty_transcript_is_not_dispatched g_x11 (env_hears [])
           (w_recording (env_hears []))
           (cycle_events g_x11 (env_hears []) (w_recording (env_hears [])))
           (temp_name 0 (lit ".wav")) []).
  - vm_compute. reflexivity.
  - vm_compute. reflexivity.
  - vm_compute. repeat (first [left; reflexivity | right]).
  - vm_compute. reflexivity.
  - vm_compute. reflexivity.
Defined.

Lemma blank_transcript_is_dispatched_witness :
  transcript_of blank_segments = repeat 0x20 (length blank_segments - 1)%nat /\
  truthy (transcript_of blank_segments) = true /\
  all_space (transcript_of blank_segments) /\
  (exists pid,
      In (Popen pid (clipboard_argv g_x11))
        (cycle_events g_x11 (env_hears blank_segments)
           (w_recording (env_hears blank_segments))) /\
      In (Communicate pid (transcript_of blank_segments))
        (cycle_events g_x11 (env_hears blank_segments)
           (w_recording (env_hears blank_segments)))) /\
  (AUTO_TYPE g_x11 = true ->
   which (env_hears blank_segments)
     (hd [] (typing_argv g_x11 (transcript_of blank_segments))) = true ->
   In (Run (typing_argv g_x11 (transcript_of blank_segments))
         (returncode (env_hears blank_segments)
            (typing_argv g_x11 (transcript_of blank_segments))))
      (cycle_events g_x11 (env_hears blank_segments)
         (w_recording (env_hears blank_segments)))).
Proof.
  apply (blank_transcript_is_dispatched g_x11 (env_hears blank_segments)
           (w_recording (env_hears blank_segments))
           (cycle_events g_x11 (env_hears blank_segments)
              (w_recording (env_hears blank_segments)))
           (temp_name 0 (lit ".wav")) blank_segments).
  - vm_compute. reflexivity.
  - vm_compute. reflexivity.
  - vm_compute. repeat (first [left; reflexivity | right]).
  - vm_compute. reflexivity.
  - vm_compute. lia.
  - repeat constructor.
  - vm_compute. reflexivity.
Defined.

(** ** Further properties *)

(** *** The transcript and its preview *)

(** X1 (line 205, tested at line 207): the transcript is the empty string
    exactly when the engine returned no segment, or a single segment that
    trims to nothing; with two or more segments it is never empty. *)
Theorem transcript_empty_iff (segments : list Segment) :
  transcript_of segments = [] <->
  segments = [] \/ exists s, segments = [s] /\ py_strip (text s) = [].
Proof.
  unfold transcript_of. split.
  - destruct segments as [|s [|s' rest]]; cbn [map py_join].
    + intros _. left. reflexivity.
    + intros H. right. exists s. split; [reflexivity | exact H].
    + intros H. apply app_eq_nil in H as [_ H].
      change (lit " ") with [0x20] in H. discriminate H.
  - intros [-> | (s & -> & H)]; [reflexivity | exact H].
Qed.

(** X2 (line 229): the preview shown in the "Copied!" notification is the
    text itself when it has at most 100 characters, and otherwise its
    first 100 characters followed by three dots; it never has more than
    103 characters. *)
Theorem preview_bounds (text : pystr) :
  ((length text <= 100)%nat -> preview text = text) /\
  ((100 < length text)%nat ->
   preview text = firstn 100 text ++ lit "..." /\
   length (preview text) = 103%nat) /\
  (length (preview text) <= 103)%nat.
Proof.
  unfold preview. change (lit "...") with [0x2E; 0x2E; 0x2E].
  destruct (100 <? length text)%nat eqn:E.
  - apply Nat.ltb_lt in E.
    assert (length (firstn 100 text ++ [0x2E; 0x2E; 0x2E]) = 103%nat) as Hl.
    { rewrite length_app, length_firstn. simpl length. lia. }
    split; [lia|]. split; [intros _; split; [reflexivity | exact Hl] | lia].
  - apply Nat.ltb_ge in E. rewrite app_nil_r.
    split; [intros _; apply firstn_all2; exact E|].
    split; [lia|]. rewrite length_firstn. lia.
Qed.

(** *** Configuration *)

Lemma get_present (cp : ConfigParser) (section opt fallback value : pystr) :
  raw_value cp section opt = Some value ->
  plain value = true ->
  get cp section opt fallback = Return value.
Proof.
  unfold raw_value, get, before_get.
  destruct (unify_values cp section) as [d|]; [|discriminate].
  intros -> Hplain.
  unfold MAX_INTERPOLATION_DEPTH. rewrite interpolate_plain by exact Hplain.
  reflexivity.
Qed.

Lemma getboolean_present (cp : ConfigParser) (section opt value : pystr)
  (fallback b : bool) :
  raw_value cp section opt = Some value ->
  plain value = true ->
  assoc (py_lower value) BOOLEAN_STATES = Some b ->
  getboolean cp section opt fallback = Return b.
Proof.
  unfold raw_value, getboolean, before_get, convert_to_boolean.
  destruct (unify_values cp section) as [d|]; [|discriminate].
  intros -> Hplain Hword.
  unfold MAX_INTERPOLATION_DEPTH. rewrite interpolate_plain by exact Hplain.
  cbn [obind app]. rewrite Hword. reflexivity.
Qed.

(** X3 (lines 59-66): a value the file gives without a percent sign is
    used as it stands.  The four strings are taken verbatim, whatever
    they are; the two booleans are read through configparser's table of
    words, in any letter case.  A default never replaces a value that is
    present. *)
Theorem load_config_keeps_present_values (cp : ConfigParser) (c : Config) :
  load_config (Parses cp) = Return c ->
  (forall v, raw_value cp (lit "whisper") (lit "model") = Some v ->
             plain v = true -> cfg_model c = v) /\
  (forall v, raw_value cp (lit "whisper") (lit "device") = Some v ->
             plain v = true -> cfg_device c = v) /\
  (forall v, raw_value cp (lit "whisper") (lit "compute_type") = Some v ->
             plain v = true -> cfg_compute_type c = v) /\
  (forall v, raw_value cp (lit "hotkey") (lit "key") = Some v ->
             plain v = true -> cfg_key c = v) /\
  (forall v b, raw_value cp (lit "behavior") (lit "auto_type") = Some v ->
               plain v = true ->
               assoc (py_lower v) BOOLEAN_STATES = Some b ->
               cfg_auto_type c = b) /\
  (forall v b, raw_value cp (lit "behavior") (lit "notifications") = Some v ->
               plain v = true ->
               assoc (py_lower v) BOOLEAN_STATES = Some b ->
               cfg_notifications c = b).
Proof.
  intros H. unfold load_config in H. cbn [read obind] in H.
  destruct (get cp (lit "whisper") (lit "model") (cfg_model defaults))
    as [v1|] eqn:E1; cbn [obind] in H; [|discriminate].
  destruct (get cp (lit "whisper") (lit "device") (cfg_device defaults))
    as [v2|] eqn:E2; cbn [obind] in H; [|discriminate].
  destruct (get cp (lit "whisper") (lit "compute_type")
              (cfg_compute_type defaults))
    as [v3|] eqn:E3; cbn [obind] in H; [|discriminate].
  destruct (get cp (lit "hotkey") (lit "key") (cfg_key defaults))
    as [v4|] eqn:E4; cbn [obind] in H; [|discriminate].
  destruct (getboolean cp (lit "behavior") (lit "auto_type") true)
    as [v5|] eqn:E5; cbn [obind] in H; [|discriminate].
  destruct (getboolean cp (lit "behavior") (lit "notifications") true)
    as [v6|] eqn:E6; cbn [obind] in H; [|discriminate].
  injection H as <-. cbn [cfg_model cfg_device cfg_compute_type cfg_key
                            cfg_auto_type cfg_notifications].
  repeat split.
  - intros v Hv Hp. rewrite (get_present _ _ _ _ _ Hv Hp) in E1. congruence.
  - intros v Hv Hp. rewrite (get_present _ _ _ _ _ Hv Hp) in E2. congruence.
  - intros v Hv Hp. rewrite (get_present _ _ _ _ _ Hv Hp) in E3. congruence.
  - intros v Hv Hp. rewrite (get_present _ _ _ _ _ Hv Hp) in E4. congruence.
  - intros v b Hv Hp Hb.
    rewrite (getboolean_present _ _ _ _ _ _ Hv Hp Hb) in E5. congruence.
  - intros v b Hv Hp Hb.
    rewrite (getboolean_present _ _ _ _ _ _ Hv Hp Hb) in E6. congruence.
Qed.

(** *** The session family (lines 25-34) *)

(** X4: the session is Wayland exactly when XDG_SESSION_TYPE says so in
    any letter case, or says neither "wayland" nor "x11" while
    WAYLAND_DISPLAY is set and not empty.  In every other case, also when
    nothing is set, the answer is X11. *)
Theorem detect_session_type_wayland_iff (environ : gmap pystr pystr) :
  let session := py_lower (default [] (environ !! lit "XDG_SESSION_TYPE")) in
  detect_session_type environ = wayland <->
  session = lit "wayland" \/
  (session <> lit "x11" /\
   exists display, environ !! lit "WAYLAND_DISPLAY" = Some display /\
                   display <> []).
Proof.
  cbv zeta. unfold detect_session_type, pystr_eqb.
  set (session := py_lower (default [] (environ !! lit "XDG_SESSION_TYPE"))).
  destruct (bool_decide_reflect (session = lit "wayland")) as [Hw|Hw].
  { split; [intros _; left; exact Hw | reflexivity]. }
  destruct (bool_decide_reflect (session = lit "x11")) as [Hx|Hx].
  { split; [discriminate|]. intros [H|[H _]]; contradiction. }
  destruct (environ !! lit "WAYLAND_DISPLAY") as [[|c display]|] eqn:Hd;
    cbn [truthy_opt truthy].
  - split.
    + destruct (truthy_opt (environ !! lit "DISPLAY")); discriminate.
    + intros [H|(_ & d & [= <-] & H)]; contradiction.
  - split; [|reflexivity]. intros _. right. split; [exact Hx|].
    exists (c :: display). split; [reflexivity | discriminate].
  - split.
    + destruct (truthy_opt (environ !! lit "DISPLAY")); discriminate.
    + intros [H|(_ & d & [=] & _)]. contradiction.
Qed.

(** X5: the variable DISPLAY has no influence on the answer: setting it to
    any value, or removing it, leaves the detected session family as it
    was. *)
Theorem detect_session_type_ignores_DISPLAY
  (environ : gmap pystr pystr) (value : pystr) :
  detect_session_type (<[lit "DISPLAY" := value]> environ)
  = detect_session_type environ /\
  detect_session_type (delete (lit "DISPLAY") environ)
  = detect_session_type environ.
Proof.
  assert (lit "DISPLAY" <> lit "XDG_SESSION_TYPE") as H1
      by (vm_compute; discriminate).
  assert (lit "DISPLAY" <> lit "WAYLAND_DISPLAY") as H2
      by (vm_compute; discriminate).
  unfold detect_session_type.
  rewrite !lookup_insert_ne, !lookup_delete_ne by assumption.
  split.
  - destruct (truthy_opt (<[lit "DISPLAY":=value]> environ !! lit "DISPLAY")),
      (truthy_opt (environ !! lit "DISPLAY")); reflexivity.
  - destruct (truthy_opt (delete (lit "DISPLAY") environ !! lit "DISPLAY")),
      (truthy_opt (environ !! lit "DISPLAY")); reflexivity.
Qed.

(** *** The hotkey (lines 72-81) *)

Section HotkeyProperties.

Variable str_lower str_upper : pystr -> pystr.
Variable ecodes : gmap pystr Z.
Variable KEY_F12 : Z.

(** X6: the name is looked up as KEY_ followed by the upper-cased,
    lower-cased name.  A name the table knows gives its code and prints
    nothing; any other name gives KEY_F12 and prints one line that shows
    the lower-cased name.  So the line is printed exactly when the name
    is unknown, and names with the same lower-case form give the same
    result. *)
Theorem get_hotkey_known_or_default (key_name : pystr) :
  let evdev_name := lit "KEY_" ++ str_upper (str_lower key_name) in
  (forall code,
      ecodes !! evdev_name = Some code ->
      get_hotkey str_lower str_upper ecodes KEY_F12 key_name = (code, [])) /\
  (ecodes !! evdev_name = None ->
   get_hotkey str_lower str_upper ecodes KEY_F12 key_name
   = (KEY_F12,
      [ Print (lit "Unknown key: " ++ str_lower key_name
                 ++ lit ", defaulting to f12") ])) /\
  (snd (get_hotkey str_lower str_upper ecodes KEY_F12 key_name) = []
   <-> ecodes !! evdev_name <> None) /\
  (forall other,
      str_lower other = str_lower key_name ->
      get_hotkey str_lower str_upper ecodes KEY_F12 other
      = get_hotkey str_lower str_upper ecodes KEY_F12 key_name).
Proof.
  cbv zeta. unfold get_hotkey.
  destruct (ecodes !! (lit "KEY_" ++ str_upper (str_lower key_name)))
    as [code|] eqn:E.
  - split; [intros c [= <-]; reflexivity|]. split; [discriminate|].
    split; [split; [discriminate | reflexivity]|].
    intros other ->. rewrite E. reflexivity.
  - split; [discriminate|]. split; [reflexivity|].
    split; [split; [discriminate | intros H; contradiction H; reflexivity]|].
    intros other ->. rewrite E. reflexivity.
Qed.

End HotkeyProperties.

(** *** The keyboards (lines 84-95 and 248-253) *)

Lemma find_keyboards_loop (hotkey : Z) (devices acc : list InputDevice) :
  fold_left
    (fun keyboards dev =>
       if is_keyboard hotkey dev then keyboards ++ [dev] else keyboards)
    devices acc
  = acc ++ List.filter (is_keyboard hotkey) devices.
Proof.
  revert acc. induction devices as [|dev rest IH]; intros acc; simpl.
  - symmetry. apply app_nil_r.
  - rewrite IH. destruct (is_keyboard hotkey dev); [|reflexivity].
    rewrite <- app_assoc. reflexivity.
Qed.

Lemma existsb_Zeqb (x : Z) (l : list Z) :
  existsb (Z.eqb x) l = true <-> In x l.
Proof.
  rewrite existsb_exists. split.
  - intros (y & Hy & Heq). apply Z.eqb_eq in Heq. subst y. exact Hy.
  - intros H. exists x. split; [exact H | apply Z.eqb_refl].
Qed.

Lemma find_keyboards_filter (hotkey : Z) (devices : list InputDevice) :
  find_keyboards hotkey devices = List.filter (is_keyboard hotkey) devices.
Proof. unfold find_keyboards. rewrite find_keyboards_loop. reflexivity. Qed.

(** X7: [find_keyboards] returns the devices that report key events and
    have both the key A and the hotkey among their keys: all of them,
    nothing else, in the order of enumeration. *)
Theorem find_keyboards_selects (hotkey : Z) (devices : list InputDevice) :
  find_keyboards hotkey devices = List.filter (is_keyboard hotkey) devices /\
  forall dev,
    In dev (find_keyboards hotkey devices) <->
    In dev devices /\
    exists keys, dev_capabilities dev !! EV_KEY = Some keys /\
                 In KEY_A keys /\ In hotkey keys.
Proof.
  split; [apply find_keyboards_filter|]. intros dev.
  rewrite find_keyboards_filter, filter_In.
  unfold is_keyboard. split.
  - intros [Hin Hk]. split; [exact Hin|].
    destruct (dev_capabilities dev !! EV_KEY) as [keys|]; [|discriminate].
    exists keys. apply andb_true_iff in Hk as [Ha Hh].
    apply existsb_Zeqb in Ha. apply existsb_Zeqb in Hh. auto.
  - intros [Hin (keys & -> & Ha & Hh)]. split; [exact Hin|].
    apply andb_true_iff. split; apply existsb_Zeqb; assumption.
Qed.

(** X8: [run] ends the process with status 1 exactly when no device
    qualifies as a keyboard, after one line about permissions; otherwise
    it goes on with the qualifying devices and prints their names. *)
Theorem run_exits_iff_no_keyboard (hotkey : Z) (devices : list InputDevice) :
  (fst (run_start hotkey devices) = Exits 1 <->
   forall dev, In dev devices -> is_keyboard hotkey dev = false) /\
  (fst (run_start hotkey devices) = Exits 1 ->
   snd (run_start hotkey devices)
   = [ Print (lit "No keyboard devices found. Check /dev/input permissions (need 'input' group).") ]) /\
  (forall dev,
      In dev devices -> is_keyboard hotkey dev = true ->
      run_start hotkey devices
      = (Returns (List.filter (is_keyboard hotkey) devices),
         [ Print (lit "Listening on: "
                    ++ py_join (lit ", ")
                         (map dev_name
                            (List.filter (is_keyboard hotkey) devices))) ])).
Proof.
  unfold run_start.
  rewrite find_keyboards_filter.
  destruct (List.filter (is_keyboard hotkey) devices) as [|k ks] eqn:E.
  - split; [|split].
    + split; [|reflexivity]. intros _ dev Hin.
      destruct (is_keyboard hotkey dev) eqn:Hk; [|reflexivity].
      assert (In dev (List.filter (is_keyboard hotkey) devices)) as H
          by (apply filter_In; auto).
      rewrite E in H. destruct H.
    + reflexivity.
    + intros dev Hin Hk.
      assert (In dev (List.filter (is_keyboard hotkey) devices)) as H
          by (apply filter_In; auto).
      rewrite E in H. destruct H.
  - split; [|split].
    + split; [discriminate|]. intros H.
      assert (In k (List.filter (is_keyboard hotkey) devices)) as Hin
          by (rewrite E; left; reflexivity).
      apply filter_In in Hin as [Hin Hk]. rewrite (H k Hin) in Hk.
      discriminate Hk.
    + discriminate.
    + reflexivity.
Qed.

(** *** The check of the dependencies (lines 274-298) *)

Lemma probe_run (env : Env) (cmd pkg : pystr) (missing : list (pystr * pystr))
  (w : World) :
  which env (lit "which") = true ->
  probe env cmd pkg missing w
  = (Ok (if (returncode env [lit "which"; cmd] =? 0)%Z
         then missing else missing ++ [(cmd, pkg)]),
     emit (Run [lit "which"; cmd] (returncode env [lit "which"; cmd])) w).
Proof.
  intros H. unfold probe, bind, subprocess_run, ret. cbn [hd].
  rewrite H. reflexivity.
Qed.

Lemma which_sound_eqb (env : Env) (cmd : pystr) :
  which_sound env ->
  (returncode env [lit "which"; cmd] =? 0)%Z = which env cmd.
Proof.
  intros H. specialize (H cmd).
  destruct (Z.eqb_spec (returncode env [lit "which"; cmd]) 0) as [E|E],
    (which env cmd); try reflexivity.
  - apply H in E. discriminate E.
  - contradiction E. apply H. reflexivity.
Qed.

(** X9: when the [which] utility is there and answers truthfully, the
    check returns exactly when every command the controller will start,
    other than notify-send, is installed: arecord, the clipboard command
    of the session and, with auto_type on, its typing command.  Otherwise
    it ends the process with status 1. *)
Theorem check_dependencies_passes_iff_installed
  (g : Globals) (env : Env) (w : World) :
  which env (lit "which") = true ->
  which_sound env ->
  fst (check_dependencies g env w)
  = if forallb (which env) (required_commands g)
    then Returns tt else Exits 1.
Proof.
  intros Hw Hs. unfold check_dependencies, missing_dependencies,
    required_commands, clipboard_argv, typing_argv.
  unfold bind at 1. rewrite probe_run by exact Hw.
  rewrite (which_sound_eqb env) by exact Hs.
  destruct (SESSION_TYPE g); unfold bind at 1; rewrite probe_run by exact Hw;
    rewrite (which_sound_eqb env) by exact Hs;
    destruct (AUTO_TYPE g); unfold ret; rewrite ?probe_run by exact Hw;
    rewrite ?(which_sound_eqb env) by exact Hs; cbn [hd forallb];
    repeat match goal with
      | |- context [which env ?c] => destruct (which env c)
      end; reflexivity.
Qed.

(** X10: if the [which] utility itself is missing, the check does not end
    the process with status 1: the first test raises FileNotFoundError,
    and nothing has been printed. *)
Theorem check_dependencies_raises_without_which
  (g : Globals) (env : Env) (w : World) :
  which env (lit "which") = false ->
  check_dependencies g env w = (Raises (FileNotFoundError (lit "which")), w).
Proof.
  intros H. unfold check_dependencies, missing_dependencies, probe.
  unfold bind, subprocess_run. cbn [hd]. rewrite H. reflexivity.
Qed.

Lemma probe_same (cmd0 : pystr) (env env' : Env) (cmd pkg : pystr)
  (missing : list (pystr * pystr)) (w : World) :
  same_but_for cmd0 env env' ->
  lit "which" <> cmd0 ->
  cmd <> cmd0 ->
  probe env' cmd pkg missing w = probe env cmd pkg missing w.
Proof.
  intros (Hwhich & Hrc & _) H1 H2. unfold probe, bind, subprocess_run.
  cbn [hd]. rewrite Hwhich by exact H1.
  rewrite Hrc by (intros [= E]; contradiction).
  reflexivity.
Qed.

(** X11: the check never asks for notify-send, although [notify] runs it
    whenever notifications are on: whether notify-send is installed, and
    what [which] would answer for it, has no effect on the check. *)
Theorem check_dependencies_ignores_notify_send
  (g : Globals) (env env' : Env) (w : World) :
  same_but_for (lit "notify-send") env env' ->
  check_dependencies g env' w = check_dependencies g env w.
Proof.
  intros H.
  assert (forall cmd pkg missing w0,
             cmd <> lit "notify-send" ->
             probe env' cmd pkg missing w0 = probe env cmd pkg missing w0)
    as Hp.
  { intros cmd pkg missing w0 Hc.
    apply (probe_same (lit "notify-send")); [exact H | | exact Hc].
    vm_compute. discriminate. }
  assert (missing_dependencies g env' w = missing_dependencies g env w)
    as Hm.
  { unfold missing_dependencies, bind.
    rewrite Hp by (vm_compute; discriminate).
    destruct (probe env (lit "arecord") (lit "alsa-utils") [] w)
      as [[m1| |] w1]; try reflexivity.
    destruct (SESSION_TYPE g); rewrite Hp by (vm_compute; discriminate).
    - destruct (probe env (lit "wl-copy") (lit "wl-clipboard") m1 w1)
        as [[m2| |] w2]; try reflexivity.
      destruct (AUTO_TYPE g); [|reflexivity].
      apply Hp. vm_compute. discriminate.
    - destruct (probe env (lit "xclip") (lit "xclip") m1 w1)
        as [[m2| |] w2]; try reflexivity.
      destruct (AUTO_TYPE g); [|reflexivity].
      apply Hp. vm_compute. discriminate. }
  unfold check_dependencies. rewrite Hm. reflexivity.
Qed.

(** *** A calculus of outcomes *)

Lemma behaves_weaken {A} (L : World -> Prop) (R R' : exn -> Prop)
  (B B' : Prop) (m : M A) :
  behaves L R B m -> (forall e, R e -> R' e) -> (B -> B') ->
  behaves L R' B' m.
Proof.
  intros Hm HR HB w Hw. destruct (Hm w Hw) as [H1 H2]. split; [exact H1|].
  destruct (fst (m w)); simpl in *; auto.
Qed.

Lemma behaves_ret {A} (L : World -> Prop) (R : exn -> Prop) (B : Prop)
  (a : A) : behaves L R B (ret a).
Proof. intros w Hw. split; [exact Hw | exact I]. Qed.

Lemma behaves_raise {A} (L : World -> Prop) (R : exn -> Prop) (B : Prop)
  (e : exn) : R e -> behaves L R B (@raise A e).
Proof. intros He w Hw. split; [exact Hw | exact He]. Qed.

Lemma behaves_get_self (L : World -> Prop) (R : exn -> Prop) (B : Prop) :
  behaves L R B get_self.
Proof. intros w Hw. split; [exact Hw | exact I]. Qed.

Lemma behaves_bind {A C} (L : World -> Prop) (R : exn -> Prop) (B : Prop)
  (m : M A) (k : A -> M C) :
  behaves L R B m -> (forall a, behaves L R B (k a)) ->
  behaves L R B (bind m k).
Proof.
  intros Hm Hk w Hw. unfold bind. destruct (Hm w Hw) as [H1 H2].
  destruct (m w) as [[a|e|] w1]; simpl in *.
  - apply Hk. exact H1.
  - split; assumption.
  - split; assumption.
Qed.

Lemma behaves_try_except {A} (L : World -> Prop) (R R' : exn -> Prop)
  (B : Prop) (body : M A) (handler : exn -> M A) :
  behaves L R' B body -> (forall e, behaves L R B (handler e)) ->
  behaves L R B (try_except body handler).
Proof.
  intros Hm Hk w Hw. unfold try_except. destruct (Hm w Hw) as [H1 H2].
  destruct (body w) as [[a|e|] w1]; simpl in *.
  - split; [exact H1 | exact I].
  - apply Hk. exact H1.
  - split; assumption.
Qed.

Lemma behaves_try_finally {A} (L : World -> Prop) (R : exn -> Prop)
  (B : Prop) (body : M A) (final : M unit) :
  behaves L R B body -> behaves L R B final ->
  behaves L R B (try_finally body final).
Proof.
  intros Hm Hk w Hw. unfold try_finally. destruct (Hm w Hw) as [H1 H2].
  destruct (body w) as [[a|e|] w1]; simpl in *;
    try (split; assumption);
    destruct (Hk w1 H1) as [H3 H4];
    destruct (final w1) as [[[]|e'|] w2]; simpl in *; split; assumption.
Qed.

Lemma steady_emit (E : event -> bool) (L : World -> Prop) (e : event)
  (w : World) :
  steady E L -> E e = true -> L w -> L (emit e w).
Proof.
  intros HL He Hw. apply (HL w _ [e]); try reflexivity; try assumption.
  repeat constructor. exact He.
Qed.

Lemma behaves_perform (E : event -> bool) (L : World -> Prop)
  (R : exn -> Prop) (B : Prop) (e : event) :
  steady E L -> E e = true -> behaves L R B (perform e).
Proof.
  intros HL He w Hw. split; [|exact I].
  exact (steady_emit E L e w HL He Hw).
Qed.

Lemma behaves_update (E : event -> bool) (L : World -> Prop)
  (R : exn -> Prop) (B : Prop) (f : Dictation -> Dictation) :
  steady E L ->
  (forall d, model (f d) = model d /\ model_loaded (f d) = model_loaded d /\
             model_error (f d) = model_error d) ->
  behaves L R B (update f).
Proof.
  intros HL Hf w Hw. split; [|exact I].
  apply (HL w _ []); try assumption.
  - unfold loader_part. simpl. destruct (Hf (self w)) as (-> & -> & ->).
    reflexivity.
  - simpl. symmetry. apply app_nil_r.
  - constructor.
Qed.

Lemma behaves_subprocess_run (env : Env) (E : event -> bool)
  (L : World -> Prop) (R : exn -> Prop) (B : Prop) (argv : list pystr) :
  steady E L -> (forall e, OSError e -> R e) ->
  (forall rc, E (Run argv rc) = true) ->
  behaves L R B (subprocess_run env argv).
Proof.
  intros HL HR He w Hw. unfold subprocess_run.
  destruct (which env (hd [] argv)); simpl.
  - split; [|exact I].
    exact (steady_emit E L _ w HL (He _) Hw).
  - split; [exact Hw | apply HR; reflexivity].
Qed.

Lemma behaves_Popen (env : Env) (E : event -> bool)
  (L : World -> Prop) (R : exn -> Prop) (B : Prop) (argv : list pystr) :
  steady E L -> (forall e, OSError e -> R e) ->
  (forall pid, E (Popen pid argv) = true) ->
  behaves L R B (subprocess_Popen env argv).
Proof.
  intros HL HR He w Hw. unfold subprocess_Popen.
  destruct (which env (hd [] argv)); simpl.
  - split; [|exact I].
    apply (HL w _ [Popen (next_pid w) argv]); try reflexivity;
      try assumption.
    repeat constructor. apply He.
  - split; [exact Hw | apply HR; reflexivity].
Qed.

Lemma behaves_NamedTemporaryFile (E : event -> bool) (L : World -> Prop)
  (R : exn -> Prop) (B : Prop) (suffix : pystr) :
  steady E L -> (forall name, E (TempFileCreated name) = true) ->
  behaves L R B (NamedTemporaryFile suffix).
Proof.
  intros HL He w Hw. split; [|exact I]. unfold NamedTemporaryFile. simpl.
  apply (HL w _ [TempFileCreated (temp_name (next_tmp w) suffix)]);
    try reflexivity; try assumption.
  repeat constructor. apply He.
Qed.

Lemma behaves_os_path_exists (L : World -> Prop) (R : exn -> Prop)
  (B : Prop) (name : pystr) : behaves L R B (os_path_exists name).
Proof. intros w Hw. split; [exact Hw | exact I]. Qed.

Lemma behaves_os_unlink (E : event -> bool) (L : World -> Prop)
  (R : exn -> Prop) (B : Prop) (name : pystr) :
  steady E L -> E (Unlink name) = true -> behaves L R B (os_unlink name).
Proof.
  intros HL He w Hw. split; [|exact I]. unfold os_unlink. simpl.
  apply (HL w _ [Unlink name]); try reflexivity; try assumption.
  repeat constructor. exact He.
Qed.

Lemma await_latch_keeps (E : event -> bool) (L : World -> Prop) :
  steady E L -> (forall w, L w -> L (loader_step w)) ->
  E LatchWaited = true ->
  forall n w, L w -> L (snd (await_latch n w)).
Proof.
  intros HL Hstep He. induction n as [|n IH]; intros w Hw; simpl;
    destruct (model_loaded (self w)); simpl;
    try exact (steady_emit E L _ w HL He Hw); try exact Hw.
  apply IH, Hstep, Hw.
Qed.

Lemma behaves_model_loaded_wait (E : event -> bool) (L : World -> Prop)
  (R : exn -> Prop) (B : Prop) :
  steady E L -> (forall w, L w -> L (loader_step w)) ->
  E LatchWaited = true ->
  (forall w, L w -> fst (model_loaded_wait w) = Blocked -> B) ->
  behaves L R B model_loaded_wait.
Proof.
  intros HL Hstep He HB w Hw. split.
  - unfold model_loaded_wait. apply (await_latch_keeps E); assumption.
  - pose proof (model_loaded_wait_spec w) as Hs.
    pose proof (HB w Hw) as Hb.
    destruct (model_loaded_wait w) as [[[]|e|] w1]; simpl in *.
    + exact I.
    + destruct Hs.
    + apply Hb. reflexivity.
Qed.

Lemma is_notify_send_argv (title message icon : pystr) (timeout : N) :
  is_notify_send (notify_send_argv title message icon timeout) = true.
Proof.
  unfold is_notify_send, notify_send_argv, pystr_eqb. cbn [hd].
  apply bool_decide_eq_true. reflexivity.
Qed.

Lemma is_typing_argv (g : Globals) (text : pystr) :
  is_typing g (typing_argv g text) = true.
Proof.
  unfold is_typing, typing_argv. apply bool_decide_eq_true.
  destruct (SESSION_TYPE g); reflexivity.
Qed.

Lemma is_capture_argv (path : pystr) : is_capture (arecord_argv path) = true.
Proof. unfold is_capture. apply bool_decide_eq_true. reflexivity. Qed.

Section Behaviour.

Context (g : Globals) (env : Env).
Context (L : World -> Prop) (E : event -> bool) (B : Prop).

Hypothesis L_steady : steady E L.
Hypothesis E_feedback : forall e, feedback_event g e = true -> E e = true.
Hypothesis E_down : forall e, down_event g e = true -> E e = true.
Hypothesis E_up : forall e, up_event g e = true -> E e = true.
Hypothesis L_loader : forall w, L w -> L (loader_step w).
Hypothesis wait_ok :
  forall w, L w -> fst (model_loaded_wait w) = Blocked -> B.
Hypothesis engine_ok : forall path, engine_transcribe env path = Blocked -> B.

Lemma behaves_print (R : exn -> Prop) (line : pystr) :
  behaves L R B (print line).
Proof.
  apply (behaves_perform E); [exact L_steady|]. apply E_feedback. reflexivity.
Qed.

Lemma behaves_notify (R : exn -> Prop) (title message icon : pystr)
  (timeout : N) :
  (forall e, OSError e -> R e) ->
  behaves L R B (notify g env title message icon timeout).
Proof.
  intros HR. unfold notify. apply behaves_bind.
  - apply (behaves_perform E); [exact L_steady|]. apply E_feedback.
    reflexivity.
  - intros _. destruct (NOTIFICATIONS g) eqn:HN; cbn [negb];
      [|apply behaves_ret].
    apply behaves_bind; [|intros; apply behaves_ret].
    apply (behaves_subprocess_run env E); [exact L_steady | exact HR|].
    intros rc. apply E_feedback. unfold feedback_event.
    rewrite HN, is_notify_send_argv. reflexivity.
Qed.

Lemma up_is (e : event) :
  match e with
  | Terminate _ | Wait _ | LatchWaited | Transcribe _ | Unlink _
  | Communicate _ _ => True
  | _ => False
  end -> E e = true.
Proof.
  intros H. apply E_up. destruct e; try destruct H; reflexivity.
Qed.

Lemma behaves_stop_capture (R : exn -> Prop) : behaves L R B stop_capture.
Proof.
  unfold stop_capture. apply behaves_bind; [apply behaves_get_self|].
  intros d. destruct (record_process d) as [p|]; [|apply behaves_ret].
  apply behaves_bind;
    [apply (behaves_perform E); [exact L_steady | apply up_is; exact I]|].
  intros _. apply behaves_bind;
    [apply (behaves_perform E); [exact L_steady | apply up_is; exact I]|].
  intros _. apply (behaves_update E); [exact L_steady|].
  intros d'. repeat split.
Qed.

Lemma behaves_model_transcribe (path : pystr) :
  behaves L (fun _ => True) B (model_transcribe env path).
Proof.
  unfold model_transcribe. apply behaves_bind; [apply behaves_get_self|].
  intros d. destruct (model d) as [mdl|]; [|apply behaves_raise; exact I].
  apply behaves_bind;
    [apply (behaves_perform E); [exact L_steady | apply up_is; exact I]|].
  intros _ w Hw. split; [exact Hw|]. cbn [fst].
  pose proof (engine_ok path) as Hb.
  destruct (engine_transcribe env path); simpl; auto.
Qed.

Lemma behaves_copy_to_clipboard (text : pystr) :
  behaves L (fun _ => True) B (copy_to_clipboard g env text).
Proof.
  unfold copy_to_clipboard. apply behaves_bind.
  - apply (behaves_Popen env E); [exact L_steady | auto |].
    intros pid. apply E_up. unfold up_event.
    rewrite bool_decide_eq_true_2 by reflexivity. apply orb_true_r.
  - intros p. apply (behaves_perform E); [exact L_steady|].
    apply up_is. exact I.
Qed.

Lemma behaves_type_text (text : pystr) :
  behaves L (fun _ => True) B (type_text g env text).
Proof.
  unfold type_text. destruct (AUTO_TYPE g) eqn:HA; [|apply behaves_ret].
  apply behaves_bind; [|intros; apply behaves_ret].
  apply (behaves_subprocess_run env E); [exact L_steady | auto |].
  intros rc. apply E_up. unfold up_event.
  rewrite HA, is_typing_argv. apply orb_true_r.
Qed.

Lemma behaves_transcribe_and_deliver :
  behaves L (fun _ => True) B (transcribe_and_deliver g env).
Proof.
  unfold transcribe_and_deliver. apply behaves_bind.
  { unfold temp_file_name. apply behaves_bind; [apply behaves_get_self|].
    intros d. destruct (temp_file d);
      [apply behaves_ret | apply behaves_raise; exact I]. }
  intros path. apply behaves_bind; [apply behaves_model_transcribe|].
  intros segments. destruct (truthy (transcript_of segments)).
  - apply behaves_bind; [apply behaves_copy_to_clipboard|]. intros _.
    apply behaves_bind; [apply behaves_type_text|]. intros _.
    apply behaves_bind; [apply behaves_print|]. intros _.
    apply behaves_notify. auto.
  - apply behaves_bind; [apply behaves_print|]. intros _.
    apply behaves_notify. auto.
Qed.

Lemma behaves_on_exception (e : exn) :
  behaves L OSError B (on_exception g env e).
Proof.
  unfold on_exception. apply behaves_bind; [apply behaves_print|].
  intros _. apply behaves_notify. auto.
Qed.

Lemma behaves_cleanup : behaves L OSError B cleanup.
Proof.
  unfold cleanup. apply behaves_bind; [apply behaves_get_self|].
  intros d. destruct (temp_file d) as [name|]; [|apply behaves_ret].
  apply behaves_bind; [apply behaves_os_path_exists|].
  intros [|]; [|apply behaves_ret].
  apply (behaves_os_unlink E); [exact L_steady | apply up_is; exact I].
Qed.

Lemma behaves_stop_recording : behaves L OSError B (stop_recording g env).
Proof.
  unfold stop_recording. apply behaves_bind; [apply behaves_get_self|].
  intros d. destruct (negb (recording d)); [apply behaves_ret|].
  apply behaves_bind.
  { apply (behaves_update E); [exact L_steady|]. intros d'. repeat split. }
  intros _. apply behaves_bind; [apply behaves_stop_capture|].
  intros _. apply behaves_bind; [apply behaves_print|].
  intros _. apply behaves_bind; [apply behaves_notify; auto|].
  intros _. apply behaves_bind.
  { apply (behaves_model_loaded_wait E); try assumption.
    apply up_is. exact I. }
  intros _. apply behaves_bind; [apply behaves_get_self|].
  intros d'. destruct (truthy_opt (model_error d')).
  - apply behaves_bind; [apply behaves_print|]. intros _.
    apply behaves_notify. auto.
  - apply behaves_try_finally; [|apply behaves_cleanup].
    apply (behaves_try_except L OSError (fun _ => True));
      [apply behaves_transcribe_and_deliver | apply behaves_on_exception].
Qed.

Lemma behaves_start_recording (B' : Prop) :
  behaves L OSError B' (start_recording g env).
Proof.
  unfold start_recording. apply behaves_bind; [apply behaves_get_self|].
  intros d. destruct (recording d || truthy_opt (model_error d));
    [apply behaves_ret|].
  apply behaves_bind.
  { apply (behaves_update E); [exact L_steady|]. intros d'. repeat split. }
  intros _. apply behaves_bind.
  { apply (behaves_NamedTemporaryFile E); [exact L_steady|].
    intros name. apply E_down. unfold down_event. apply orb_true_r. }
  intros f. apply behaves_bind.
  { apply (behaves_update E); [exact L_steady|]. intros d'. repeat split. }
  intros _. apply behaves_bind.
  { apply (behaves_Popen env E); [exact L_steady | auto |].
    intros pid. apply E_down. unfold down_event.
    cbn [feedback_event orb]. apply is_capture_argv. }
  intros p. apply behaves_bind.
  { apply (behaves_update E); [exact L_steady|]. intros d'. repeat split. }
  intros _. apply behaves_bind.
  { apply (behaves_perform E); [exact L_steady|]. apply E_feedback.
    reflexivity. }
  intros _. unfold notify. apply behaves_bind.
  { apply (behaves_perform E); [exact L_steady|]. apply E_feedback.
    reflexivity. }
  intros _. destruct (NOTIFICATIONS g) eqn:HN; cbn [negb];
    [|apply behaves_ret].
  apply behaves_bind; [|intros; apply behaves_ret].
  apply (behaves_subprocess_run env E); [exact L_steady | auto |].
  intros rc. apply E_feedback. unfold feedback_event.
  rewrite HN, is_notify_send_argv. reflexivity.
Qed.

Lemma behaves_on_event (event : InputEvent) :
  behaves L OSError B (on_event g env event).
Proof.
  unfold on_event.
  destruct ((ev_type event =? EV_KEY)%Z && (ev_code event =? HOTKEY g)%Z);
    [|apply behaves_ret].
  destruct (ev_value event =? 1)%Z; [apply behaves_start_recording|].
  destruct (ev_value event =? 0)%Z;
    [apply behaves_stop_recording | apply behaves_ret].
Qed.

Lemma behaves_for_events (events : list InputEvent) :
  behaves L OSError B (for_events g env events).
Proof.
  induction events as [|event rest IH]; simpl; [apply behaves_ret|].
  apply behaves_bind; [apply behaves_on_event | intros _; exact IH].
Qed.

Lemma behaves_read_device (events : list InputEvent) :
  behaves L (fun _ => False) B (read_device g env events).
Proof.
  intros w Hw. unfold read_device.
  destruct (behaves_for_events events w Hw) as [H1 H2].
  destruct (for_events g env events w) as [[[]|e|] w1]; simpl in *;
    try (split; [exact H1 | assumption]).
  unfold OSError in H2. rewrite H2. split; [exact H1 | exact I].
Qed.

(** A system whose main thread is alive, or asleep for a reason [B]. *)
Lemma step_behaves (sys : System) (s : sched) :
  L (world sys) /\ (main sys = Live \/ (main sys = Hung /\ B)) ->
  L (world (step g env sys s)) /\
  (main (step g env sys s) = Live \/ (main (step g env sys s) = Hung /\ B)).
Proof.
  intros [Hw Hm]. unfold step. destruct Hm as [Hm | [Hm Hb]]; rewrite Hm.
  - destruct s as [|events]; simpl.
    + split; [apply L_loader; exact Hw | left; reflexivity].
    + destruct (behaves_read_device events (world sys) Hw) as [H1 H2].
      destruct (read_device g env events (world sys)) as [[[]|e|] w1];
        simpl in *.
      * split; [exact H1 | left; reflexivity].
      * destruct H2.
      * split; [exact H1 | right; split; [reflexivity | exact H2]].
  - split; [exact Hw | right; split; assumption].
Qed.

Lemma steps_behave (schedule : list sched) (sys : System) :
  L (world sys) /\ (main sys = Live \/ (main sys = Hung /\ B)) ->
  L (world (fold_left (step g env) schedule sys)) /\
  (main (fold_left (step g env) schedule sys) = Live \/
   (main (fold_left (step g env) schedule sys) = Hung /\ B)).
Proof.
  revert sys. induction schedule as [|s rest IH]; intros sys Hsys; simpl;
    [exact Hsys|].
  apply IH, step_behaves, Hsys.
Qed.

Lemma run_behaves (schedule : list sched) :
  L (Dictation_init g env) ->
  L (world (run g env schedule)) /\
  (main (run g env schedule) = Live \/
   (main (run g env schedule) = Hung /\ B)).
Proof.
  intros H0. unfold run. apply steps_behave.
  split; [exact H0 | left; reflexivity].
Qed.

End Behaviour.

(** *** What the events of an edge can be *)

Lemma feedback_event_shape (g : Globals) (e : event) :
  feedback_event g e = true ->
  match e with
  | Print _ | NotifyCall _ _ _ _ => True
  | Run argv _ => NOTIFICATIONS g = true /\ hd [] argv = lit "notify-send"
  | _ => False
  end.
Proof.
  destruct e; simpl; try discriminate; auto.
  intros H. apply andb_true_iff in H as [H1 H2]. split; [exact H1|].
  unfold is_notify_send, pystr_eqb in H2.
  apply bool_decide_eq_true in H2. exact H2.
Qed.

Lemma down_event_shape (g : Globals) (e : event) :
  down_event g e = true ->
  match e with
  | Print _ | NotifyCall _ _ _ _ | TempFileCreated _ => True
  | Popen _ argv => exists path, argv = arecord_argv path
  | Run argv _ => NOTIFICATIONS g = true /\ hd [] argv = lit "notify-send"
  | _ => False
  end.
Proof.
  unfold down_event. intros H. apply orb_true_iff in H as [H|H].
  - apply feedback_event_shape in H.
    destruct e; try contradiction; try exact I. exact H.
  - destruct e; try discriminate H; try exact I.
    unfold is_capture in H. apply bool_decide_eq_true in H. eauto.
Qed.

Lemma up_event_shape (g : Globals) (e : event) :
  up_event g e = true ->
  match e with
  | TempFileCreated _ => False
  | Popen _ argv => argv = clipboard_argv g
  | Run argv _ =>
      (NOTIFICATIONS g = true /\ hd [] argv = lit "notify-send") \/
      (AUTO_TYPE g = true /\ exists text, argv = typing_argv g text)
  | _ => True
  end.
Proof.
  unfold up_event. intros H. apply orb_true_iff in H as [H|H].
  - apply feedback_event_shape in H.
    destruct e; try contradiction; try exact I. left. exact H.
  - destruct e; try discriminate H; try exact I.
    + apply andb_true_iff in H as [H1 H2]. right. split; [exact H1|].
      unfold is_typing in H2. apply bool_decide_eq_true in H2. eauto.
    + apply bool_decide_eq_true in H. exact H.
Qed.

Lemma feedback_is_down (g : Globals) (e : event) :
  feedback_event g e = true -> down_event g e = true.
Proof. intros H. unfold down_event. rewrite H. reflexivity. Qed.

Lemma feedback_is_up (g : Globals) (e : event) :
  feedback_event g e = true -> up_event g e = true.
Proof. intros H. unfold up_event. rewrite H. reflexivity. Qed.

Lemma loader_event_is_up (g : Globals) (e : event) :
  loader_event e = true -> up_event g e = true.
Proof. destruct e; try discriminate; reflexivity. Qed.

Lemma steady_logged (P : event -> bool) (w0 : World) :
  steady P (logged P w0).
Proof.
  intros w w' evs (evs0 & Hlog & Hall) _ Hlog' Hall'.
  exists (evs0 ++ evs). split.
  - rewrite Hlog', Hlog. symmetry. apply app_assoc.
  - apply Forall_app. split; assumption.
Qed.

Lemma logged_refl (P : event -> bool) (w : World) : logged P w w.
Proof.
  exists []. split; [symmetry; apply app_nil_r | constructor].
Qed.

Lemma logged_skipn (P : event -> bool) (w w' : World) :
  logged P w w' ->
  Forall (fun e => P e = true) (skipn (length (log w)) (log w')).
Proof.
  intros (evs & -> & Hall).
  rewrite skipn_app, skipn_all, Nat.sub_diag. exact Hall.
Qed.

(** *** The loader's part of the world *)

Lemma loader_part_loader_step (w : World) :
  loader_part (loader_step w) = loader_part_step (loader_part w).
Proof.
  unfold loader_part, loader_step, loader_part_step.
  destruct (loader w) as [|op rest] eqn:Hl; [rewrite Hl; reflexivity|].
  destruct op; reflexivity.
Qed.





(** *** The event loop as a whole (lines 260-271) *)



Lemma known_of_down (g : Globals) (e : event) :
  down_event g e = true -> known_event g e = true.
Proof. intros H. unfold known_event. rewrite H. reflexivity. Qed.

Lemma known_of_up (g : Globals) (e : event) :
  up_event g e = true -> known_event g e = true.
Proof. intros H. unfold known_event. rewrite H. apply orb_true_r. Qed.

Lemma steady_known_log (g : Globals) :
  steady (known_event g)
    (fun w => Forall (fun e => known_event g e = true) (log w)).
Proof.
  intros w w' evs Hw _ -> Hall. apply Forall_app. split; assumption.
Qed.

(** X14: in every run the only external commands that are started are
    the capture command, the clipboard command of the session, its typing
    command and notify-send; the typing command only with auto_type on,
    notify-send only with notifications on. *)
Theorem only_known_commands
  (g : Globals) (env : Env) (schedule : list sched) :
  let tr := log (world (run g env schedule)) in
  (forall pid argv,
      In (Popen pid argv) tr ->
      (exists path, argv = arecord_argv path) \/ argv = clipboard_argv g) /\
  (forall argv rc,
      In (Run argv rc) tr ->
      (NOTIFICATIONS g = true /\ hd [] argv = lit "notify-send") \/
      (AUTO_TYPE g = true /\ exists text, argv = typing_argv g text)).
Proof.
  cbv zeta.
  assert (Forall (fun e => known_event g e = true)
            (log (world (run g env schedule)))) as Hall.
  { refine (proj1 (run_behaves g env
                (fun w => Forall (fun e => known_event g e = true) (log w))
                (known_event g) True _ _ _ _ _ _ _ schedule _));
      try (intros; exact I).
    - apply steady_known_log.
    - intros e He. apply known_of_down, feedback_is_down, He.
    - apply known_of_down.
    - apply known_of_up.
    - intros w Hw.
      destruct (loader_step_spec w) as (_ & _ & evs & -> & Hev).
      apply Forall_app. split; [exact Hw|].
      eapply List.Forall_impl; [|exact Hev].
      intros e He. apply known_of_up, loader_event_is_up, He.
    - repeat constructor. }
  rewrite List.Forall_forall in Hall. split.
  - intros pid argv Hin. apply Hall in Hin. unfold known_event in Hin.
    apply orb_true_iff in Hin as [H|H].
    + left. exact (down_event_shape g _ H).
    + right. exact (up_event_shape g _ H).
  - intros argv rc Hin. apply Hall in Hin. unfold known_event in Hin.
    apply orb_true_iff in Hin as [H|H].
    + left. exact (down_event_shape g _ H).
    + exact (up_event_shape g _ H).
Qed.

(** *** The two edges, each on its own *)

(** X15: handling a release never creates a file and never starts a
    capture: the only process it opens is the clipboard command of the
    session, and the only commands it runs are notify-send (with
    notifications on) and the typing command (with auto_type on). *)
Theorem up_edge_starts_no_session (g : Globals) (env : Env) (w : World) :
  let new := cycle_events g env w in
  (forall name, ~ In (TempFileCreated name) new) /\
  (forall pid argv, In (Popen pid argv) new -> argv = clipboard_argv g) /\
  (forall argv rc,
      In (Run argv rc) new ->
      (NOTIFICATIONS g = true /\ hd [] argv = lit "notify-send") \/
      (AUTO_TYPE g = true /\ exists text, argv = typing_argv g text)).
Proof.
  cbv zeta. unfold cycle_events.
  assert (logged (up_event g) w (snd (stop_recording g env w))) as H.
  { apply (behaves_stop_recording g env (logged (up_event g) w)
             (up_event g) True); try (intros; exact I); try auto.
    - apply steady_logged.
    - apply feedback_is_up.
    - intros w1 (evs & Hlog & Hall).
      destruct (loader_step_spec w1) as (_ & _ & evs1 & Hlog1 & Hev).
      exists (evs ++ evs1). split.
      + rewrite Hlog1, Hlog. symmetry. apply app_assoc.
      + apply Forall_app. split; [exact Hall|].
        eapply List.Forall_impl; [|exact Hev].
        intros e He. apply loader_event_is_up, He.
    - apply logged_refl. }
  apply logged_skipn in H. rewrite List.Forall_forall in H.
  split; [|split].
  - intros name Hin. exact (up_event_shape g _ (H _ Hin)).
  - intros pid argv Hin. exact (up_event_shape g _ (H _ Hin)).
  - intros argv rc Hin. exact (up_event_shape g _ (H _ Hin)).
Qed.

(** X16: handling a press never waits: it returns or raises, whatever
    the state of the loader thread and of the engine.  It never calls the
    engine, never removes a file, never touches the clipboard or types;
    the only process it opens is the capture, and the only command it
    runs is notify-send (with notifications on). *)
Theorem down_edge_returns_at_once (g : Globals) (env : Env) (w : World) :
  let new := skipn (length (log w)) (log (snd (start_recording g env w))) in
  fst (start_recording g env w) <> Blocked /\
  (forall path, ~ In (Transcribe path) new) /\
  ~ In LatchWaited new /\
  (forall name, ~ In (Unlink name) new) /\
  (forall pid input, ~ In (Communicate pid input) new) /\
  (forall pid argv,
      In (Popen pid argv) new -> exists path, argv = arecord_argv path) /\
  (forall argv rc,
      In (Run argv rc) new ->
      NOTIFICATIONS g = true /\ hd [] argv = lit "notify-send").
Proof.
  cbv zeta.
  destruct (behaves_start_recording g env (logged (down_event g) w)
              (down_event g) (steady_logged _ _) (feedback_is_down g)
              (fun e H => H) False w (logged_refl _ _)) as [H Hout].
  split.
  { intros Hb. rewrite Hb in Hout. exact Hout. }
  apply logged_skipn in H. rewrite List.Forall_forall in H.
  refine (conj _ (conj _ (conj _ (conj _ (conj _ _))))).
  - intros path Hin. exact (down_event_shape g _ (H _ Hin)).
  - intros Hin. exact (down_event_shape g _ (H _ Hin)).
  - intros name Hin. exact (down_event_shape g _ (H _ Hin)).
  - intros pid input Hin. exact (down_event_shape g _ (H _ Hin)).
  - intros pid argv Hin. exact (down_event_shape g _ (H _ Hin)).
  - intros argv rc Hin. exact (down_event_shape g _ (H _ Hin)).
Qed.

(** *** Events that are not an edge of the hotkey (lines 264-269) *)

Lemma on_event_other (g : Globals) (env : Env) (event : InputEvent)
  (w : World) :
  is_edge g event = false -> on_event g env event w = (Ok tt, w).
Proof.
  unfold is_edge, on_event. intros H.
  destruct ((ev_type event =? EV_KEY)%Z && (ev_code event =? HOTKEY g)%Z);
    [|reflexivity].
  cbn [andb] in H. apply orb_false_iff in H as [-> ->]. reflexivity.
Qed.

(** X17: events of another type, of another key, and the auto-repeat of
    the hotkey itself (value 2) are skipped: a batch made of such events
    only leaves the object, the files, the processes and the log as they
    were, in whatever state the controller is. *)
Theorem other_events_are_skipped
  (g : Globals) (env : Env) (events : list InputEvent) (w : World) :
  Forall (fun event =>
            ev_type event <> EV_KEY \/ ev_code event <> HOTKEY g \/
            (ev_value event <> 1 /\ ev_value event <> 0)%Z) events ->
  read_device g env events w = (Ok tt, w).
Proof.
  intros H. unfold read_device.
  assert (for_events g env events w = (Ok tt, w)) as ->; [|reflexivity].
  induction H as [|event rest Hev _ IH]; [reflexivity|].
  cbn [for_events]. unfold bind. rewrite on_event_other, IH; [reflexivity|].
  unfold is_edge.
  destruct Hev as [Hev | [Hev | [H1 H0]]].
  - apply Z.eqb_neq in Hev. rewrite Hev. reflexivity.
  - apply Z.eqb_neq in Hev. rewrite Hev. apply andb_false_iff. left.
    apply andb_false_r.
  - apply Z.eqb_neq in H1. apply Z.eqb_neq in H0. rewrite H1, H0.
    apply andb_false_r.
Qed.

Lemma for_events_app (g : Globals) (env : Env) (pre post : list InputEvent)
  (w : World) :
  for_events g env (pre ++ post) w
  = match for_events g env pre w with
    | (Ok _, w1) => for_events g env post w1
    | (Raise e, w1) => (Raise e, w1)
    | (Blocked, w1) => (Blocked, w1)
    end.
Proof.
  revert w. induction pre as [|event pre IH]; intros w; [reflexivity|].
  cbn [app for_events]. unfold bind at 1 2.
  destruct (on_event g env event w) as [[[]|e|] w1]; try reflexivity.
  apply IH.
Qed.

(** X18: when the handling of an event raises, the events that the device
    reported after it are never handled: an OSError ends the batch
    silently at that point, with the world as the failing handler left
    it. *)
Theorem rest_of_batch_is_dropped
  (g : Globals) (env : Env) (pre post : list InputEvent) (event : InputEvent)
  (w w1 w2 : World) (e : exn) :
  for_events g env pre w = (Ok tt, w1) ->
  on_event g env event w1 = (Raise e, w2) ->
  is_OSError e = true ->
  read_device g env (pre ++ event :: post) w = (Ok tt, w2).
Proof.
  intros Hpre Hev He. unfold read_device.
  rewrite for_events_app, Hpre. cbn [for_events]. unfold bind at 1.
  rewrite Hev, He. reflexivity.
Qed.

Lemma stop_recording_while_idle (g : Globals) (env : Env) (w : World) :
  recording (self w) = false -> stop_recording g env w = (Ok tt, w).
Proof.
  intros H. unfold stop_recording, bind, get_self. rewrite H. reflexivity.
Qed.

(** X19: once a load error with a message is recorded and no recording is
    going on, nothing the devices report has any effect: every batch of
    events, presses included, leaves the object, the files, the processes
    and the log untouched.  No message and no notification tells the
    user why. *)
Theorem no_reaction_after_load_error
  (g : Globals) (env : Env) (events : list InputEvent) (w : World) :
  truthy_opt (model_error (self w)) = true ->
  recording (self w) = false ->
  read_device g env events w = (Ok tt, w).
Proof.
  intros Herr Hrec. unfold read_device.
  assert (for_events g env events w = (Ok tt, w)) as ->; [|reflexivity].
  induction events as [|event rest IH]; [reflexivity|].
  cbn [for_events]. unfold bind.
  assert (on_event g env event w = (Ok tt, w)) as ->; [|exact IH].
  unfold on_event.
  destruct ((ev_type event =? EV_KEY)%Z && (ev_code event =? HOTKEY g)%Z);
    [|reflexivity].
  destruct (ev_value event =? 1)%Z;
    [apply start_recording_refused_after_load_error; exact Herr|].
  destruct (ev_value event =? 0)%Z;
    [apply stop_recording_while_idle; exact Hrec | reflexivity].
Qed.

(** *** One cycle, step by step *)

#[local] Opaque lit py_str_int temp_name clipboard_argv typing_argv.


Lemma hd_notify_send_argv (title message icon : pystr) (timeout : N) :
  hd [] (notify_send_argv title message icon timeout) = lit "notify-send".
Proof. reflexivity. Qed.

Lemma hd_arecord_argv (path : pystr) :
  hd [] (arecord_argv path) = lit "arecord".
Proof. reflexivity. Qed.





(** X22: a press while arecord is missing.  The flag is raised and the
    sound file is created before the capture is started, so when Popen
    raises FileNotFoundError (swallowed by the loop) the controller is
    left "recording" without a capture process, the empty file stays on
    disk, and further presses are ignored until the key is released. *)
Theorem press_without_arecord (g : Globals) (env : Env) (w : World) :
  recording (self w) = false ->
  truthy_opt (model_error (self w)) = false ->
  which env (lit "arecord") = false ->
  fst (start_recording g env w) = Raise (FileNotFoundError (lit "arecord")) /\
  recording (self (snd (start_recording g env w))) = true /\
  record_process (self (snd (start_recording g env w)))
  = record_process (self w) /\
  temp_file (self (snd (start_recording g env w)))
  = Some (temp_name (next_tmp w) (lit ".wav")) /\
  (temp_name (next_tmp w) (lit ".wav") ∈ fs (snd (start_recording g env w))) /\
  log (snd (start_recording g env w))
  = log w ++ [ TempFileCreated (temp_name (next_tmp w) (lit ".wav")) ] /\
  start_recording g env (snd (start_recording g env w))
  = (Ok tt, snd (start_recording g env w)).
Proof.
  intros Hrec Herr Hare.
  assert (start_recording g env w
          = (Raise (FileNotFoundError (lit "arecord")),
             mkWorld
               (set_temp_file (Some (temp_name (next_tmp w) (lit ".wav")))
                  (set_recording true (self w)))
               ({[ temp_name (next_tmp w) (lit ".wav") ]} ∪ fs w)
               (next_pid w) (N.succ (next_tmp w)) (loader w)
               (log w ++ [TempFileCreated
                            (temp_name (next_tmp w) (lit ".wav"))]))) as ->.
  { unfold start_recording, NamedTemporaryFile, subprocess_Popen, update,
      bind, get_self.
    rewrite Hrec, Herr. simpl. rewrite ?hd_arecord_argv, Hare. reflexivity. }
  cbn [fst snd self fs log recording record_process temp_file
         set_temp_file set_recording].
  refine (conj eq_refl (conj eq_refl (conj eq_refl (conj eq_refl
           (conj _ (conj eq_refl _)))))).
  - apply elem_of_union_l, elem_of_singleton. reflexivity.
  - apply start_recording_while_recording. reflexivity.
Qed.

Lemma stop_recording_without_notify_send
  (g : Globals) (env : Env) (w : World) :
  recording (self w) = true ->
  NOTIFICATIONS g = true ->
  which env (lit "notify-send") = false ->
  fst (stop_recording g env w)
  = Raise (FileNotFoundError (lit "notify-send")) /\
  log (snd (stop_recording g env w))
  = log w ++ capture_stop (record_process (self w))
      ++ [ Print (lit "Transcribing...");
           NotifyCall (lit "Transcribing...") (lit "Processing your speech")
             (lit "emblem-synchronizing") 30000 ].
Proof.
  intros Hrec HN Hns.
  unfold stop_recording, stop_capture, notify, subprocess_run, print,
    perform, update, bind, get_self, ret.
  rewrite Hrec, HN. simpl.
  destruct (record_process (self w)) as [p|]; simpl;
    rewrite ?hd_notify_send_argv, Hns; simpl; rewrite <- ?app_assoc;
    split; reflexivity.
Qed.

#[local] Transparent lit py_str_int temp_name clipboard_argv typing_argv.

Lemma down_event_no_result (g : Globals) (e : event) :
  down_event g e = true -> is_result e = false.
Proof.
  intros H. apply down_event_shape in H. destruct e; auto; destruct H.
Qed.

Lemma loader_event_no_result (e : event) :
  loader_event e = true -> is_result e = false.
Proof. destruct e; try discriminate; reflexivity. Qed.

(** X23: with notifications on and notify-send not installed, which the
    check of the dependencies lets pass, nothing is ever transcribed:
    every release ends in FileNotFoundError at the "Transcribing..."
    notification, before the engine is called.  In no run is the engine
    called, anything sent to the clipboard, or a sound file removed. *)
Theorem nothing_transcribed_without_notify_send
  (g : Globals) (env : Env) (schedule : list sched) :
  NOTIFICATIONS g = true ->
  which env (lit "notify-send") = false ->
  forall e, In e (log (world (run g env schedule))) -> is_result e = false.
Proof.
  intros HN Hns.
  set (L := fun w : World =>
              Forall (fun e => is_result e = false) (log w)).
  assert (steady (down_event g) L) as Hsteady.
  { intros w w' evs Hw _ Hlog Hall. unfold L. rewrite Hlog.
    apply Forall_app. split; [exact Hw|].
    eapply List.Forall_impl; [|exact Hall].
    intros e. apply down_event_no_result. }
  assert (forall event w, L w -> L (snd (on_event g env event w))) as Hev.
  { intros event w Hw. unfold on_event.
    destruct ((ev_type event =? EV_KEY)%Z && (ev_code event =? HOTKEY g)%Z);
      [|exact Hw].
    destruct (ev_value event =? 1)%Z.
    { apply (behaves_start_recording g env L (down_event g) Hsteady
               (feedback_is_down g) (fun e H => H) True w Hw). }
    destruct (ev_value event =? 0)%Z; [|exact Hw].
    destruct (recording (self w)) eqn:Hrec.
    - destruct (stop_recording_without_notify_send g env w Hrec HN Hns)
        as [_ Hlog].
      unfold L. rewrite Hlog. apply Forall_app. split; [exact Hw|].
      destruct (record_process (self w)); repeat constructor.
    - rewrite stop_recording_while_idle by exact Hrec. exact Hw. }
  assert (forall events w, L w -> L (snd (read_device g env events w)))
    as Hread.
  { intros events w Hw.
    assert (L (snd (for_events g env events w))) as H.
    { revert w Hw. induction events as [|event rest IH]; intros w Hw;
        [exact Hw|].
      cbn [for_events]. unfold bind. specialize (Hev event w Hw).
      destruct (on_event g env event w) as [[[]|x|] w1]; simpl in *;
        try exact Hev.
      apply IH, Hev. }
    unfold read_device.
    destruct (for_events g env events w) as [[[]|x|] w1]; simpl in *;
      try exact H.
    destruct (is_OSError x); exact H. }
  assert (forall sys, L (world sys) ->
                      L (world (fold_left (step g env) schedule sys))) as Hrun.
  { induction schedule as [|s rest IH]; intros sys Hsys; [exact Hsys|].
    simpl. apply IH. unfold step. destruct (main sys); try exact Hsys.
    destruct s as [|events]; simpl.
    - destruct (loader_step_spec (world sys)) as (_ & _ & evs & Hlog & Hall).
      unfold L. rewrite Hlog. apply Forall_app. split; [exact Hsys|].
      eapply List.Forall_impl; [|exact Hall].
      intros e. apply loader_event_no_result.
    - specialize (Hread events (world sys) Hsys).
      destruct (read_device g env events (world sys)) as [[[]|x|] w1];
        exact Hread. }
  intros e Hin.
  assert (L (world (run g env schedule))) as H.
  { apply Hrun. repeat constructor. }
  unfold L in H. rewrite List.Forall_forall in H. apply H, Hin.
Qed.

(** *** After a release *)

Lemma flag_down_stable : stable (fun w => recording (self w) = false).
Proof. intros w w' evs Hw Hself _ _. rewrite Hself. exact Hw. Qed.

Lemma flag_down_wait :
  preserves (fun w => recording (self w) = false) model_loaded_wait.
Proof.
  intros w Hw. unfold model_loaded_wait.
  destruct (await_latch (length (loader w)) w) as [r w1] eqn:E.
  apply await_latch_spec in E. destruct E as (_ & _ & (Hrec & _) & _).
  simpl. rewrite Hrec. exact Hw.
Qed.

Lemma flag_down_transcribe (env : Env) (path : pystr) :
  preserves (fun w => recording (self w) = false)
    (model_transcribe env path).
Proof.
  intros w Hw. unfold model_transcribe, bind, get_self, raise, perform.
  destruct (model (self w)); simpl; exact Hw.
Qed.

Lemma flag_down_after_release (g : Globals) (env : Env) (w : World) :
  recording (self (snd (stop_recording g env w))) = false.
Proof.
  unfold stop_recording. unfold bind at 1. unfold get_self at 1.
  destruct (recording (self w)) eqn:Hrec; [|exact Hrec]. cbn [negb].
  unfold bind at 1. unfold update at 1.
  set (P := fun w : World => recording (self w) = false).
  change (P (snd (bind stop_capture
            (fun _ =>
             bind (print (lit "Transcribing..."))
               (fun _ =>
             bind (notify g env (lit "Transcribing...")
                     (lit "Processing your speech")
                     (lit "emblem-synchronizing") 30000)
               (fun _ =>
             bind model_loaded_wait
               (fun _ =>
             bind get_self
               (fun d =>
                if truthy_opt (model_error d) then
                  bind (print (lit "Cannot transcribe: model failed to load"))
                    (fun _ => notify g env (lit "Error")
                                (lit "Model failed to load")
                                (lit "dialog-error") 3000)
                else
                  try_finally
                    (try_except (transcribe_and_deliver g env)
                       (on_exception g env))
                    cleanup)))))
            (with_self (set_recording false (self w)) w)))).
  assert (stable P) as HP by exact flag_down_stable.
  revert w Hrec. intros w _.
  generalize (with_self (set_recording false (self w)) w)
    (eq_refl : P (with_self (set_recording false (self w)) w)).
  change (preserves P
            (bind stop_capture
            (fun _ =>
             bind (print (lit "Transcribing..."))
               (fun _ =>
             bind (notify g env (lit "Transcribing...")
                     (lit "Processing your speech")
                     (lit "emblem-synchronizing") 30000)
               (fun _ =>
             bind model_loaded_wait
               (fun _ =>
             bind get_self
               (fun d =>
                if truthy_opt (model_error d) then
                  bind (print (lit "Cannot transcribe: model failed to load"))
                    (fun _ => notify g env (lit "Error")
                                (lit "Model failed to load")
                                (lit "dialog-error") 3000)
                else
                  try_finally
                    (try_except (transcribe_and_deliver g env)
                       (on_exception g env))
                    cleanup))))))).
  apply preserves_bind.
  { intros w0 Hw0. unfold stop_capture, bind, get_self, perform, update, ret.
    destruct (record_process (self w0)); simpl; exact Hw0. }
  intros _. apply preserves_bind;
    [apply quiet_preserves; [exact HP | apply quiet_print]|].
  intros _. apply preserves_bind;
    [apply quiet_preserves; [exact HP | apply quiet_notify]|].
  intros _. apply preserves_bind; [exact flag_down_wait|].
  intros _. apply preserves_bind;
    [apply quiet_preserves; [exact HP | apply quiet_get_self]|].
  intros d. destruct (truthy_opt (model_error d)).
  - apply preserves_bind;
      [apply quiet_preserves; [exact HP | apply quiet_print]|].
    intros _. apply quiet_preserves; [exact HP | apply quiet_notify].
  - apply preserves_try_finally;
      [|apply quiet_preserves; [exact HP | apply quiet_cleanup]].
    apply preserves_try_except;
      [|intros e; apply quiet_preserves;
        [exact HP | apply quiet_on_exception]].
    unfold transcribe_and_deliver. apply preserves_bind;
      [apply quiet_preserves; [exact HP | apply quiet_temp_file_name]|].
    intros path. apply preserves_bind; [apply flag_down_transcribe|].
    intros segments. apply quiet_preserves; [exact HP|].
    destruct (truthy (transcript_of segments)).
    + apply quiet_bind; [apply quiet_copy_to_clipboard|]. intros _.
      apply quiet_bind; [apply quiet_type_text|]. intros _.
      apply quiet_bind; [apply quiet_print|]. intros _.
      apply quiet_notify.
    + apply quiet_bind; [apply quiet_print|]. intros _.
      apply quiet_notify.
Qed.

Lemma release_Idle (g : Globals) (env : Env) (w : World) :
  Inv w -> Idle (snd (stop_recording g env w)).
Proof.
  intros HI. unfold stop_recording. unfold bind at 1. unfold get_self at 1.
  destruct (recording (self w)) eqn:Hrec; cbn [negb].
  - unfold bind at 1. unfold update at 1. unfold bind at 1.
    pose proof (stop_capture_Idle w HI) as Hidle.
    destruct (stop_capture (with_self (set_recording false (self w)) w))
      as [[[]|e|] w1]; simpl in Hidle; try exact Hidle.
    apply (stop_recording_tail_Idle g env w1 Hidle).
  - split; [exact HI|]. apply (inv_idle w HI). exact Hrec.
Qed.

(** X24: in every state the program can reach, the handling of a release
    leaves the controller idle however it ends, be it by returning, by
    raising or by never returning: the recording flag is down, there is
    no capture process, and every capture that was started has been
    waited for. *)
Theorem release_leaves_controller_idle
  (g : Globals) (env : Env) (schedule : list sched) :
  let w' := snd (stop_recording g env (world (run g env schedule))) in
  recording (self w') = false /\
  record_process (self w') = None /\
  live_captures (log w') = [].
Proof.
  cbv zeta.
  destruct (release_Idle g env _ (run_Inv g env schedule)) as [HI Hp].
  split; [apply flag_down_after_release|]. split; [exact Hp|].
  rewrite (inv_live _ HI), Hp. reflexivity.
Qed.

(** *** The model state (lines 111-113 and 120-132) *)

Lemma advance_succ (k : nat)
  (s : list loader_op * (option WhisperModel * bool * option pystr)) :
  advance (S k) s = advance k (loader_part_step s).
Proof. unfold advance. apply Nat.iter_succ_r. Qed.

Lemma advance_prints (k : nat) (ops : list loader_op)
  (st : option WhisperModel * bool * option pystr) :
  forallb is_loader_print ops = true ->
  advance k (ops, st) = (skipn k ops, st).
Proof.
  revert ops. induction k as [|k IH]; intros ops H; [reflexivity|].
  rewrite advance_succ. destruct st as [[m l] e].
  destruct ops as [|op rest].
  - cbn [loader_part_step]. rewrite IH by reflexivity.
    rewrite skipn_nil. reflexivity.
  - cbn [forallb] in H. apply andb_true_iff in H as [Hop Hrest].
    destruct op; try discriminate Hop. cbn [loader_part_step skipn].
    apply IH. exact Hrest.
Qed.

Lemma forallb_skipn {A} (f : A -> bool) (k : nat) (l : list A) :
  forallb f l = true -> forallb f (skipn k l) = true.
Proof.
  revert l. induction k as [|k IH]; intros l H; [exact H|].
  destruct l as [|x l]; [reflexivity|].
  cbn [forallb] in H. apply andb_true_iff in H as [_ H]. apply IH, H.
Qed.

Lemma boot_settled (g : Globals) (env : Env) (k : nat) :
  settled env (advance k (loader_part (Dictation_init g env))).
Proof.
  unfold loader_part, Dictation_init, _load_model, settled, outcome_recorded.
  cbn [loader self model model_loaded model_error].
  destruct (WhisperModel_new env) as [m|e|].
  - destruct k as [|[|k]]; try (cbn; discriminate).
    rewrite !advance_succ. cbn [loader_part_step].
    rewrite advance_prints by reflexivity. cbn [fst snd]. intros _.
    split; [apply forallb_skipn; reflexivity | split; reflexivity].
  - destruct k as [|[|k]]; try (cbn; discriminate).
    rewrite !advance_succ. cbn [app loader_part_step].
    destruct (py_contains (lit "cudnn") (py_lower (str_exn e))
              || py_contains (lit "cuda") (py_lower (str_exn e)));
      rewrite advance_prints by reflexivity; cbn [fst snd]; intros _;
      (split; [apply forallb_skipn; reflexivity | split; reflexivity]).
  - rewrite advance_prints by reflexivity. cbn [fst snd]. discriminate.
Qed.

Lemma steady_advanced (E : event -> bool)
  (s0 : list loader_op * (option WhisperModel * bool * option pystr)) :
  steady E (fun w => exists k, loader_part w = advance k s0).
Proof. intros w w' evs [k Hk] Hpart _ _. exists k. congruence. Qed.

Lemma advanced_loader_step
  (s0 : list loader_op * (option WhisperModel * bool * option pystr))
  (w : World) :
  (exists k, loader_part w = advance k s0) ->
  exists k, loader_part (loader_step w) = advance k s0.
Proof.
  intros [k Hk]. exists (S k). rewrite loader_part_loader_step, Hk.
  reflexivity.
Qed.

Lemma run_alive (g : Globals) (env : Env) (schedule : list sched) :
  main (run g env schedule) = Live \/
  (main (run g env schedule) = Hung /\ True).
Proof.
  refine (proj2 (run_behaves g env (fun _ => True) (fun _ => true) True
                   _ _ _ _ _ _ _ schedule _));
    try (unfold steady; intros; exact I); intros; reflexivity.
Qed.

(** Between two points of a run only the loader thread has written its
    part of the world. *)
Lemma steps_advance (g : Globals) (env : Env) (schedule : list sched)
  (sys : System) :
  main sys = Live \/ (main sys = Hung /\ True) ->
  exists k,
    loader_part (world (fold_left (step g env) schedule sys))
    = advance k (loader_part (world sys)).
Proof.
  intros Hm.
  refine (proj1 (steps_behave g env
                   (fun w => exists k,
                        loader_part w = advance k (loader_part (world sys)))
                   (fun _ => true) True _ _ _ _ _ _ _ schedule sys _));
    try (intros; exact I); try (intros; reflexivity).
  - apply steady_advanced.
  - apply advanced_loader_step.
  - split; [exists O; reflexivity | exact Hm].
Qed.

Lemma run_settled (g : Globals) (env : Env) (schedule : list sched) :
  settled env (loader_part (world (run g env schedule))).
Proof.
  destruct (steps_advance g env schedule (boot g env)) as [k Hk];
    [left; reflexivity|].
  unfold run. rewrite Hk. apply boot_settled.
Qed.

(** X25: in every run, at every moment at which the latch is set, the
    outcome of loading is already there for the main thread to read: the
    model and no error if the constructor returned, the text of the
    exception and no model if it raised.  If the constructor never
    returns, the latch is never set. *)
Theorem latch_means_outcome_recorded
  (g : Globals) (env : Env) (schedule : list sched) :
  model_loaded (self (world (run g env schedule))) = true ->
  match WhisperModel_new env with
  | Ok m =>
      model (self (world (run g env schedule))) = Some m /\
      model_error (self (world (run g env schedule))) = None
  | Raise e =>
      model (self (world (run g env schedule))) = None /\
      model_error (self (world (run g env schedule))) = Some (str_exn e)
  | Blocked => False
  end.
Proof.
  intros H. destruct (run_settled g env schedule H) as [_ Hout].
  exact Hout.
Qed.

(** X26: the model state never reverts.  Once the latch is set in a run,
    the model, the latch and the error stay what they are, whatever
    happens afterwards: only the loader thread writes them, and after
    setting the latch it only prints. *)
Theorem model_state_never_reverts
  (g : Globals) (env : Env) (schedule more : list sched) :
  model_loaded (self (world (run g env schedule))) = true ->
  model_state (world (run g env (schedule ++ more)))
  = model_state (world (run g env schedule)).
Proof.
  intros H. destruct (run_settled g env schedule H) as [Hprints _].
  unfold run. rewrite fold_left_app. fold (run g env schedule).
  destruct (steps_advance g env more (run g env schedule)
              (run_alive g env schedule)) as [k Hk].
  change (snd (loader_part
                 (world (fold_left (step g env) more (run g env schedule))))
          = snd (loader_part (world (run g env schedule)))).
  rewrite Hk.
  destruct (loader_part (world (run g env schedule))) as [ops st].
  rewrite advance_prints by exact Hprints. reflexivity.
Qed.

(** ** Witnesses of the further properties *)

Lemma transcript_empty_iff_witness :
  transcript_of [ mkSegment (lit "  ") ] = [].
Proof.
  apply (proj2 (transcript_empty_iff [ mkSegment (lit "  ") ])).
  right. exists (mkSegment (lit "  ")). split; reflexivity.
Defined.

Lemma preview_bounds_witness :
  preview (lit "hello world") = lit "hello world".
Proof.
  apply (proj1 (preview_bounds (lit "hello world"))).
  vm_compute. lia.
Defined.

Lemma load_config_keeps_present_values_witness :
  cfg_model (mkConfig (lit "small") (lit "cpu") (lit "int8") (lit "f12")
               false true) = lit "small" /\
  cfg_auto_type (mkConfig (lit "small") (lit "cpu") (lit "int8") (lit "f12")
                   false true) = false.
Proof.
  destruct (load_config_keeps_present_values parser_small_no_typing
              (mkConfig (lit "small") (lit "cpu") (lit "int8") (lit "f12")
                 false true))
    as (Hmodel & _ & _ & _ & Hauto & _).
  - vm_compute. reflexivity.
  - split.
    + apply Hmodel; vm_compute; reflexivity.
    + apply (Hauto (lit "No")); vm_compute; reflexivity.
Defined.

Lemma detect_session_type_wayland_iff_witness :
  detect_session_type {[ lit "XDG_SESSION_TYPE" := lit "Wayland" ]} = wayland.
Proof.
  apply (proj2 (detect_session_type_wayland_iff
                  {[ lit "XDG_SESSION_TYPE" := lit "Wayland" ]})).
  cbv zeta. left. vm_compute. reflexivity.
Defined.

Lemma get_hotkey_known_or_default_witness :
  get_hotkey py_lower ascii_upper ecodes_sample 88 (lit "F9") = (67%Z, []) /\
  get_hotkey py_lower ascii_upper ecodes_sample 88 (lit "hyper")
  = (88%Z, [ Print (lit "Unknown key: " ++ py_lower (lit "hyper")
                      ++ lit ", defaulting to f12") ]).
Proof.
  split.
  - apply (proj1 (get_hotkey_known_or_default py_lower ascii_upper
                    ecodes_sample 88 (lit "F9"))).
    vm_compute. reflexivity.
  - apply (proj1 (proj2 (get_hotkey_known_or_default py_lower ascii_upper
                           ecodes_sample 88 (lit "hyper")))).
    vm_compute. reflexivity.
Defined.

Lemma find_keyboards_selects_witness :
  In a_keyboard (find_keyboards 88 [a_mouse; a_keyboard]).
Proof.
  apply (proj2 (find_keyboards_selects 88 [a_mouse; a_keyboard])).
  split; [right; left; reflexivity|].
  exists [1; 30; 88]%Z. split; [vm_compute; reflexivity|].
  split; [right; left; reflexivity | right; right; left; reflexivity].
Defined.

Lemma run_exits_iff_no_keyboard_witness :
  fst (run_start 88 [a_mouse]) = Exits 1.
Proof.
  apply (proj1 (run_exits_iff_no_keyboard 88 [a_mouse])).
  intros dev [<- | []]. vm_compute. reflexivity.
Defined.

Lemma check_dependencies_passes_iff_installed_witness :
  fst (check_dependencies g_x11 env_ready (w_idle env_ready))
  = if forallb (which env_ready) (required_commands g_x11)
    then Returns tt else Exits 1.
Proof.
  apply (check_dependencies_passes_iff_installed g_x11 env_ready).
  - reflexivity.
  - intros cmd. split; reflexivity.
Defined.

Lemma check_dependencies_raises_without_which_witness :
  check_dependencies g_x11 (env_without (lit "which"))
    (w_idle (env_without (lit "which")))
  = (Raises (FileNotFoundError (lit "which")),
     w_idle (env_without (lit "which"))).
Proof.
  apply (check_dependencies_raises_without_which g_x11
           (env_without (lit "which"))).
  vm_compute. reflexivity.
Defined.

Lemma check_dependencies_ignores_notify_send_witness :
  check_dependencies g_x11 (env_without (lit "notify-send"))
    (w_idle env_ready)
  = check_dependencies g_x11 env_ready (w_idle env_ready).
Proof.
  apply (check_dependencies_ignores_notify_send g_x11 env_ready
           (env_without (lit "notify-send"))).
  split; [|split; [|split]]; try reflexivity.
  intros c Hc. unfold env_without, env_ready, which, pystr_eqb.
  rewrite bool_decide_eq_false_2 by exact Hc. reflexivity.
Defined.


Lemma only_known_commands_witness :
  (exists path,
      arecord_argv (temp_name 0 (lit ".wav")) = arecord_argv path) \/
  arecord_argv (temp_name 0 (lit ".wav")) = clipboard_argv g_x11.
Proof.
  apply (proj1 (only_known_commands g_x11 env_ready
                  [LoaderStep; LoaderStep; DeviceRead [key_down g_x11]])
           0%nat).
  vm_compute. repeat (first [left; reflexivity | right]).
Defined.

Lemma up_edge_starts_no_session_witness :
  [ lit "xclip"; lit "-selection"; lit "clipboard" ] = clipboard_argv g_x11.
Proof.
  apply (proj1 (proj2 (up_edge_starts_no_session g_x11 env_ready
                         (w_recording env_ready))) 1%nat).
  vm_compute. repeat (first [left; reflexivity | right]).
Defined.

Lemma down_edge_returns_at_once_witness :
  exists path, arecord_argv (temp_name 0 (lit ".wav")) = arecord_argv path.
Proof.
  destruct (down_edge_returns_at_once g_x11 env_ready (w_idle env_ready))
    as (_ & _ & _ & _ & _ & Hpopen & _).
  apply (Hpopen 0%nat).
  vm_compute. repeat (first [left; reflexivity | right]).
Defined.

Lemma other_events_are_skipped_witness :
  read_device g_x11 env_ready
    [ mkInputEvent 1 88 2; mkInputEvent 1 30 1; mkInputEvent 4 4 88 ]
    (w_recording env_ready)
  = (Ok tt, w_recording env_ready).
Proof.
  apply (other_events_are_skipped g_x11 env_ready).
  apply List.Forall_cons;
    [|apply List.Forall_cons;
      [|apply List.Forall_cons; [|apply List.Forall_nil]]].
  - right. right. split; discriminate.
  - right. left. discriminate.
  - left. discriminate.
Defined.

Lemma rest_of_batch_is_dropped_witness :
  read_device g_x11 env_without_notify_send
    ([] ++ key_down g_x11 :: [key_up g_x11])
    (w_idle env_without_notify_send)
  = (Ok tt,
     snd (on_event g_x11 env_without_notify_send (key_down g_x11)
            (w_idle env_without_notify_send))).
Proof.
  apply (rest_of_batch_is_dropped g_x11 env_without_notify_send [] _ _
           (w_idle env_without_notify_send) (w_idle env_without_notify_send)
           _ (FileNotFoundError (lit "notify-send"))).
  - reflexivity.
  - vm_compute. reflexivity.
  - reflexivity.
Defined.

Lemma no_reaction_after_load_error_witness :
  read_device g_x11 (env_load_fails (lit "boom"))
    [key_down g_x11; key_up g_x11] (w_idle (env_load_fails (lit "boom")))
  = (Ok tt, w_idle (env_load_fails (lit "boom"))).
Proof.
  apply (no_reaction_after_load_error g_x11 (env_load_fails (lit "boom")));
    vm_compute; reflexivity.
Defined.





Lemma press_without_arecord_witness :
  fst (start_recording g_x11 (env_without (lit "arecord"))
         (w_idle (env_without (lit "arecord"))))
  = Raise (FileNotFoundError (lit "arecord")) /\
  recording
    (self (snd (start_recording g_x11 (env_without (lit "arecord"))
                  (w_idle (env_without (lit "arecord")))))) = true.
Proof.
  destruct (press_without_arecord g_x11 (env_without (lit "arecord"))
              (w_idle (env_without (lit "arecord"))))
    as (Hraise & Hflag & _); try (vm_compute; reflexivity).
  split; [exact Hraise | exact Hflag].
Defined.

Lemma nothing_transcribed_without_notify_send_witness :
  is_result (Wait 0) = false.
Proof.
  apply (nothing_transcribed_without_notify_send g_x11
           env_without_notify_send
           [ LoaderStep; LoaderStep; DeviceRead [key_down g_x11];
             DeviceRead [key_up g_x11] ]).
  - reflexivity.
  - vm_compute. reflexivity.
  - vm_compute. repeat (first [left; reflexivity | right]).
Defined.

Lemma latch_means_outcome_recorded_witness :
  model (self (world (run g_x11 env_ready [LoaderStep; LoaderStep])))
  = Some whisper_model /\
  model_error (self (world (run g_x11 env_ready [LoaderStep; LoaderStep])))
  = None.
Proof.
  apply (latch_means_outcome_recorded g_x11 env_ready
           [LoaderStep; LoaderStep]).
  vm_compute. reflexivity.
Defined.

Lemma model_state_never_reverts_witness :
  model_state
    (world (run g_x11 (env_load_fails (lit "boom"))
              ([LoaderStep; LoaderStep]
               ++ [DeviceRead [key_down g_x11]; LoaderStep])))
  = model_state
      (world (run g_x11 (env_load_fails (lit "boom"))
                [LoaderStep; LoaderStep])).
Proof.
  apply (model_state_never_reverts g_x11 (env_load_fails (lit "boom"))).
  vm_compute. reflexivity.
Defined.

Lemma temp_file_unlinked_once_past_model_check_witness :
  count_unlinks (temp_name 0 (lit ".wav"))
    (cycle_events g_x11 env_ready (w_recording env_ready)) = 1%nat /\
  temp_name 0 (lit ".wav")
    ∉ fs (snd (stop_recording g_x11 env_ready (w_recording env_ready))).
Proof.
  apply (temp_file_unlinked_once_past_model_check g_x11 env_ready
           (w_recording env_ready)).
  - vm_compute. reflexivity.
  - vm_compute. reflexivity.
  - apply (bool_decide_eq_true_1 _). vm_compute. reflexivity.
  - vm_compute. reflexivity.
  - vm_compute. repeat (first [left; reflexivity | right]).
  - vm_compute. reflexivity.
  - vm_compute. discriminate.
Defined.
